(** * django-gcloud-storage: path resolution, buffered remote file, storage facade

    A shallow embedding of [django_gcloud_storage/__init__.py].

    - Text (Python [str]) is a list of one-byte characters, [list ascii];
      [py "..."] writes a literal.
    - File contents are lists of bytes.
    - Code that may raise returns [result]; methods that mutate an object or
      talk to the bucket thread the state explicitly.
    - [urlparse.urljoin] is the one of CPython 3.11 ([urllib/parse.py]); the
      validation of a bracketed IPv6 host, which [urllib] delegates to the
      [ipaddress] module, is a parameter of the development. *)

From Stdlib Require Import Ascii String NArith.
From stdpp Require Import base decidable option list sorting strings gmap.

Set Default Proof Using "Type".

Abbreviation str := (list ascii).
Abbreviation bytes := (list Byte.byte).

Definition py (s : string) : str := list_ascii_of_string s.

(** ** Exceptions and results *)

Inductive exn : Type :=
  | SuspiciousFileOperation (resolved base : str)
  | ValueError
  | AttributeError
  | NotFound
  | RemoteError (code : nat).

Inductive result (A : Type) : Type :=
  | Ok (a : A)
  | Raise (e : exn).
Arguments Ok {A} a.
Arguments Raise {A} e.

Definition rbind {A B} (r : result A) (k : A -> result B) : result B :=
  match r with
  | Ok a => k a
  | Raise e => Raise e
  end.

Declare Scope result_scope.
Delimit Scope result_scope with result.
Notation "'let?' x ':=' r 'in' k" := (rbind r (fun x => k))
  (at level 10, x pattern, r at level 100, k at level 200) : result_scope.

(** ** Python string primitives *)

Module PyStr.

Definition slash : ascii := "/"%char.

(** [s.lstrip(chars)], the stripped set given as a predicate. *)
Fixpoint lstrip (p : ascii -> bool) (s : str) : str :=
  match s with
  | c :: t => if p c then lstrip p t else s
  | [] => []
  end.

Definition rstrip (p : ascii -> bool) (s : str) : str :=
  reverse (lstrip p (reverse s)).

Definition is_char (c x : ascii) : bool := bool_decide (x = c).

(** [c in s] *)
Definition contains (c : ascii) (s : str) : bool := bool_decide (c ∈ s).

(** [s.find(c)]: [None] stands for Python's [-1]. *)
Fixpoint find (c : ascii) (s : str) : option nat :=
  match s with
  | [] => None
  | x :: t => if decide (x = c) then Some 0 else S <$> find c t
  end.

(** [s.find(c, start)] *)
Definition find_from (c : ascii) (start : nat) (s : str) : option nat :=
  (fun i => start + i) <$> find c (drop start s).

(** [s.rfind(c)] *)
Definition rfind (c : ascii) (s : str) : option nat :=
  (fun i => length s - 1 - i) <$> find c (reverse s).

(** [s.split(c)]: always at least one piece. *)
Fixpoint split (c : ascii) (s : str) : list str :=
  match s with
  | [] => [[]]
  | x :: t =>
      if decide (x = c) then [] :: split c t
      else match split c t with
           | seg :: segs => (x :: seg) :: segs
           | [] => [[x]]
           end
  end.

(** [s.split(c, 1)] when [c in s]: the text before and after the first [c]. *)
Definition partition (c : ascii) (s : str) : option (str * str) :=
  (fun i => (take i s, drop (S i) s)) <$> find c s.

(** [c.join(segs)] *)
Fixpoint join (c : ascii) (segs : list str) : str :=
  match segs with
  | [] => []
  | [seg] => seg
  | seg :: rest => seg ++ c :: join c rest
  end.

(** [re.sub("//+", "/", s)]: every run of two or more separators becomes
    one separator. *)
Fixpoint collapse (s : str) : str :=
  match s with
  | [] => []
  | c :: t =>
      match t with
      | c' :: _ =>
          if decide (c = slash) then
            if decide (c' = slash) then collapse t else c :: collapse t
          else c :: collapse t
      | [] => [c]
      end
  end.

(** [s.startswith(p)] *)
Definition startswith (s p : str) : bool := bool_decide (p `prefix_of` s).

End PyStr.


(** ** [urllib.parse] (CPython 3.11): [urlsplit], [urlparse], [urlunparse],
    [urljoin] *)

Module Urllib.
Import PyStr.
Local Open Scope result_scope.

Definition uses_relative : list str :=
  py <$> [""; "ftp"; "http"; "gopher"; "nntp"; "imap"; "wais"; "file";
          "https"; "shttp"; "mms"; "prospero"; "rtsp"; "rtspu"; "sftp";
          "svn"; "svn+ssh"; "ws"; "wss"]%string.

Definition uses_netloc : list str :=
  py <$> [""; "ftp"; "http"; "gopher"; "nntp"; "telnet"; "imap"; "wais";
          "file"; "mms"; "https"; "shttp"; "snews"; "prospero"; "rtsp";
          "rtspu"; "rsync"; "svn"; "svn+ssh"; "sftp"; "nfs"; "git";
          "git+ssh"; "ws"; "wss"]%string.

Definition uses_params : list str :=
  py <$> [""; "ftp"; "hdl"; "prospero"; "http"; "imap"; "https"; "shttp";
          "rtsp"; "rtspu"; "sip"; "sips"; "mms"; "sftp"; "tel"]%string.

Definition code (c : ascii) : N := N_of_ascii c.

Definition between (lo hi : ascii) (c : ascii) : bool :=
  (code lo <=? code c)%N && (code c <=? code hi)%N.

Definition is_upper : ascii -> bool := between "A" "Z".
Definition is_alpha (c : ascii) : bool := between "a" "z" c || is_upper c.
Definition is_digit : ascii -> bool := between "0" "9".

(** [c in scheme_chars] *)
Definition scheme_char (c : ascii) : bool :=
  is_alpha c || is_digit c || bool_decide (c ∈ py "+-.").

(** [_WHATWG_C0_CONTROL_OR_SPACE]: the code points 0 to 32. *)
Definition c0_control_or_space (c : ascii) : bool := (code c <=? 32)%N.

(** [_UNSAFE_URL_BYTES_TO_REMOVE]: tab, carriage return, line feed. *)
Definition unsafe_url_byte (c : ascii) : bool :=
  bool_decide (c ∈ ["009"; "013"; "010"]%char).

Definition lower (c : ascii) : ascii :=
  if is_upper c then ascii_of_N (code c + 32) else c.

Record SplitResult : Type := mkSplit {
  s_scheme : str; s_netloc : str; s_path : str;
  s_query : str; s_fragment : str }.

Record ParseResult : Type := mkParse {
  scheme : str; netloc : str; path : str;
  params : str; query : str; fragment : str }.

(** [_splitnetloc(url, 2)]: the host part runs to the first of [/?#]. *)
Definition host_delim (c : ascii) : bool := bool_decide (c ∈ py "/?#").

Fixpoint span_host (s : str) : str * str :=
  match s with
  | [] => ([], [])
  | c :: t => if host_delim c then ([], s)
              else let '(h, r) := span_host t in (c :: h, r)
  end.

Definition _splitnetloc (url : str) : str * str := span_host (drop 2 url).

Section Parse.
(** [_check_bracketed_netloc netloc]: [true] when the host between the
    brackets is accepted. The check needs the [ipaddress] module and is
    left as a parameter. [_checknetloc] is not modelled: it rejects a host
    whose NFKC form gains one of [/ ? # @ :], which no host made of
    characters below 256 does. *)
Variable check_bracketed_netloc : str -> bool.

Definition urlsplit (url scheme0 : str) : result SplitResult :=
  let url := lstrip c0_control_or_space url in
  let scheme0 :=
    rstrip c0_control_or_space (lstrip c0_control_or_space scheme0) in
  let url := filter (fun c => negb (unsafe_url_byte c)) url in
  let scheme0 := filter (fun c => negb (unsafe_url_byte c)) scheme0 in
  let '(sch, url) :=
    match find ":" url, url with
    | Some (S i), c0 :: _ =>
        if is_alpha c0 && forallb scheme_char (take (S i) url)
        then (lower <$> take (S i) url, drop (S (S i)) url)
        else (scheme0, url)
    | _, _ => (scheme0, url)
    end in
  let? (nl, url) :=
    if bool_decide (take 2 url = py "//") then
      let '(nl, rest) := _splitnetloc url in
      if contains "[" nl && negb (contains "]" nl)
         || contains "]" nl && negb (contains "[" nl)
      then Raise ValueError
      else if contains "[" nl && contains "]" nl
              && negb (check_bracketed_netloc nl)
      then Raise ValueError
      else Ok (nl, rest)
    else Ok ([], url) in
  let '(url, frag) :=
    match partition "#" url with
    | Some (u, f) => (u, f)
    | None => (url, [])
    end in
  let '(url, qry) :=
    match partition "?" url with
    | Some (u, q) => (u, q)
    | None => (url, [])
    end in
  Ok (mkSplit sch nl url qry frag).

Definition _splitparams (url : str) : str * str :=
  if contains slash url then
    match find_from ";" (default 0 (rfind slash url)) url with
    | None => (url, [])
    | Some i => (take i url, drop (S i) url)
    end
  else
    match find ";" url with
    | Some i => (take i url, drop (S i) url)
    | None => (take (length url - 1) url, url)
    end.

Definition urlparse (url scheme0 : str) : result ParseResult :=
  let? r := urlsplit url scheme0 in
  let '(url, prm) :=
    if bool_decide (s_scheme r ∈ uses_params) && contains ";" (s_path r)
    then _splitparams (s_path r)
    else (s_path r, []) in
  Ok (mkParse (s_scheme r) (s_netloc r) url prm (s_query r) (s_fragment r)).

Definition nonempty (s : str) : bool :=
  match s with [] => false | _ => true end.

Definition urlunsplit (r : SplitResult) : str :=
  let url := s_path r in
  let url :=
    if nonempty (s_netloc r)
       || nonempty (s_scheme r) && bool_decide (s_scheme r ∈ uses_netloc)
          && negb (bool_decide (take 2 url = py "//"))
    then
      let url :=
        if nonempty url && negb (bool_decide (take 1 url = py "/"))
        then slash :: url else url in
      py "//" ++ s_netloc r ++ url
    else url in
  let url := if nonempty (s_scheme r) then s_scheme r ++ ":"%char :: url
             else url in
  let url := if nonempty (s_query r) then url ++ "?"%char :: s_query r
             else url in
  if nonempty (s_fragment r) then url ++ "#"%char :: s_fragment r
  else url.

Definition urlunparse (r : ParseResult) : str :=
  let url := if nonempty (params r) then path r ++ ";"%char :: params r
             else path r in
  urlunsplit (mkSplit (scheme r) (netloc r) url (query r) (fragment r)).

(** The loop of [urljoin] over the segments: [..] pops (an empty stack is
    left alone), [.] is skipped, anything else is pushed. *)
Definition resolve_step (resolved_path : list str) (seg : str) : list str :=
  if decide (seg = py "..") then removelast resolved_path
  else if decide (seg = py ".") then resolved_path
  else resolved_path ++ [seg].

Definition resolve_segments (segments : list str) : list str :=
  fold_left resolve_step segments [].

(** [segments[1:-1] = filter(None, segments[1:-1])] *)
Definition filter_middle (segments : list str) : list str :=
  let n := length segments in
  take 1 segments
  ++ filter (fun s => nonempty s) (drop 1 (take (n - 1) segments))
  ++ drop (max 1 (n - 1)) segments.

Definition urljoin (base url : str) : result str :=
  if negb (nonempty base) then Ok url
  else if negb (nonempty url) then Ok base
  else
    let? b := urlparse base [] in
    let? u := urlparse url (scheme b) in
    if negb (bool_decide (scheme u = scheme b))
       || negb (bool_decide (scheme u ∈ uses_relative))
    then Ok url
    else if bool_decide (scheme u ∈ uses_netloc) && nonempty (netloc u)
    then Ok (urlunparse u)
    else
      let nl := if bool_decide (scheme u ∈ uses_netloc) then netloc b
                else netloc u in
      if negb (nonempty (path u)) && negb (nonempty (params u)) then
        let qry := if nonempty (query u) then query u else query b in
        Ok (urlunparse
              (mkParse (scheme u) nl (path b) (params b) qry (fragment u)))
      else
        let base_parts := split slash (path b) in
        let base_parts :=
          if nonempty (List.last base_parts [])
          then take (length base_parts - 1) base_parts
          else base_parts in
        let segments :=
          if bool_decide (take 1 (path u) = py "/")
          then split slash (path u)
          else filter_middle (base_parts ++ split slash (path u)) in
        let resolved_path := resolve_segments segments in
        let resolved_path :=
          if bool_decide (List.last segments [] ∈ [py "."; py ".."])
          then resolved_path ++ [[]] else resolved_path in
        let joined := join slash resolved_path in
        let joined := if nonempty joined then joined else py "/" in
        Ok (urlunparse
              (mkParse (scheme u) nl joined (params u) (query u)
                       (fragment u))).
End Parse.
End Urllib.

(** ** The path resolver: [safe_join] *)

Section SafeJoin.
Import PyStr.
Local Open Scope result_scope.

Variable check_bracketed_netloc : str -> bool.

(** [base] as [safe_join] normalises it (lines 28 and 32-33). *)
Definition normalize_base (base : str) : str :=
  let b := slash :: rstrip (is_char slash) (lstrip (is_char slash) base)
           ++ [slash] in
  if decide (b = py "//") then py "/" else b.

(** [path] as [safe_join] normalises it (line 29). *)
Definition normalize_path (path : str) : str := lstrip (is_char slash) path.

Definition safe_join (base path : str) : result str :=
  let base := normalize_base base in
  let path := normalize_path path in
  let? resolved_url := Urllib.urljoin check_bracketed_netloc base path in
  let resolved_url := collapse resolved_url in
  if negb (startswith resolved_url base)
  then Raise (SuspiciousFileOperation resolved_url base)
  else Ok resolved_url.
End SafeJoin.

(** ** The remote bucket

    The gcloud client is outside the repository. The bucket is a finite map
    from keys to objects; every request is recorded in [calls], and a request
    first takes the next entry of [faults], which tells whether the service
    fails this time. *)

Record Blob : Type := mkBlob {
  content : bytes;
  updated : Z;
  timeCreated : option Z }.

Definition size (b : Blob) : nat := length (content b).

Inductive call : Type :=
  | CallGet (key : str)
  | CallUpload (key : str) (data : bytes)
  | CallDownload (key : str)
  | CallDelete (key : str)
  | CallList (prefix : str).

(** A failing request: the error raised, and for an upload how many bytes
    had been read from the file by then. *)
Record fault : Type := mkFault { fault_exn : exn; fault_read : nat }.

Record bucket : Type := mkBucket {
  objects : gmap str Blob;
  now : Z;
  calls : list call;
  faults : list (option fault) }.

Definition next_fault (b : bucket) : option fault := mjoin (head (faults b)).

Definition is_upload (c : call) : bool :=
  match c with CallUpload _ _ => true | _ => false end.

(** The number of upload requests made so far. *)
Definition upload_count (b : bucket) : nat :=
  length (filter (fun c => is_upload c) (calls b)).

(** A request [c] goes out: log it and consume one entry of the schedule. *)
Definition request (c : call) (b : bucket) : option fault * bucket :=
  (next_fault b,
   mkBucket (objects b) (now b) (calls b ++ [c]) (tail (faults b))).

(** State and error monad over the bucket. *)
Definition M (A : Type) : Type := bucket -> result A * bucket.

#[global] Instance M_ret : MRet M := fun A a b => (Ok a, b).
#[global] Instance M_bind : MBind M := fun A B k m b =>
  match m b with
  | (Ok a, b') => k a b'
  | (Raise e, b') => (Raise e, b')
  end.

Definition raise {A} (e : exn) : M A := fun b => (Raise e, b).
Definition lift {A} (r : result A) : M A := fun b => (r, b).

(** [try: m except NotFound: pass] *)
Definition except_NotFound (m : M unit) : M unit := fun b =>
  match m b with
  | (Raise NotFound, b') => (Ok tt, b')
  | r => r
  end.

(** A local file object: contents, cursor, and whether it was closed. This
    is the [SpooledTemporaryFile] of a [GCloudFile] and the file inside the
    [content] handed to [_save]; the spill to disk beyond [max_size] does
    not show. *)
Record pyfile : Type := mkFile {
  data : bytes;
  pos : nat;
  closed : bool }.

(** The [content] handed to [_save]: a file object, and whether its
    [fileno()] gives a descriptor. A file on disk and a
    [SpooledTemporaryFile] have one; a file held in memory (Django's
    [ContentFile], a [BytesIO]) has none, and its [fileno()] raises. *)
Record content_file : Type := mkContent {
  file_of : pyfile;
  has_fileno : bool }.

Module PyFile.
Definition empty : pyfile := mkFile [] 0 false.

Definition zero : Byte.byte := Byte.x00.

(** [f.write(b)]: overwrite at the cursor, padding with zeros when the
    cursor is past the end and [b] is not empty. *)
Definition write (b : bytes) (f : pyfile) : result pyfile :=
  if closed f then Raise ValueError
  else match b with
       | [] => Ok f
       | _ =>
           let before := take (pos f) (data f)
                         ++ replicate (pos f - length (data f)) zero in
           Ok (mkFile (before ++ b ++ drop (pos f + length b) (data f))
                      (pos f + length b) false)
       end.

(** [f.read(n)], [f.read()] for [None] *)
Definition read (n : option nat) (f : pyfile) : result (bytes * pyfile) :=
  if closed f then Raise ValueError
  else
    let rest := drop (pos f) (data f) in
    let got := match n with Some k => take k rest | None => rest end in
    Ok (got, mkFile (data f) (pos f + length got) false).

(** [f.seek(p)] *)
Definition seek (p : nat) (f : pyfile) : result pyfile :=
  if closed f then Raise ValueError else Ok (mkFile (data f) p false).

(** [f.close()]: closing twice is allowed. *)
Definition close (f : pyfile) : pyfile := mkFile (data f) (pos f) true.
End PyFile.

(** *** Requests of the collaborator (spec section 6) *)

Module Gcloud.

(** [bucket.get_blob(key)]: the object's metadata, or [None]. *)
Definition get_blob (key : str) : M (option Blob) := fun b =>
  match request (CallGet key) b with
  | (Some f, b') => (Raise (fault_exn f), b')
  | (None, b') => (Ok (objects b' !! key), b')
  end.

(** [blob.upload_from_file(file, rewind)]: with [rewind] the file is first
    sought to its start; the object becomes everything from the cursor to
    the end of the file. The file is returned with its new cursor. *)
Definition upload_from_file (key : str) (file : pyfile) (rewind : bool)
  : bucket -> result unit * pyfile * bucket := fun b =>
  if closed file then (Raise ValueError, file, b)
  else
    let start := if rewind then 0 else pos file in
    let body := drop start (data file) in
    match request (CallUpload key body) b with
    | (Some f, b') =>
        (Raise (fault_exn f),
         mkFile (data file) (start + min (fault_read f) (length body)) false,
         b')
    | (None, b') =>
        (Ok tt,
         mkFile (data file) (start + length body) false,
         mkBucket (<[key := mkBlob body (now b') (Some (now b'))]> (objects b'))
                  (now b' + 1) (calls b') (faults b'))
    end.

(** [blob.download_to_file(file)] fetches the bytes; the client then hands
    them to the [write] method of the file object it was given. *)
Definition download (key : str) : M bytes := fun b =>
  match request (CallDownload key) b with
  | (Some f, b') => (Raise (fault_exn f), b')
  | (None, b') =>
      match objects b' !! key with
      | Some o => (Ok (content o), b')
      | None => (Raise NotFound, b')
      end
  end.

(** [bucket.delete_blob(key)]: [NotFound] when there is no such object. *)
Definition delete_blob (key : str) : M unit := fun b =>
  match request (CallDelete key) b with
  | (Some f, b') => (Raise (fault_exn f), b')
  | (None, b') =>
      match objects b' !! key with
      | Some _ =>
          (Ok tt,
           mkBucket (delete key (objects b')) (now b') (calls b') (faults b'))
      | None => (Raise NotFound, b')
      end
  end.

(** What is left of [key] after [prefix], when [key] starts with it. *)
Definition under (prefix key : str) : option str :=
  if decide (prefix `prefix_of` key) then Some (drop (length prefix) key)
  else None.

(** A key under [prefix] is an item when nothing after the prefix contains
    the delimiter. *)
Definition item_of (prefix : str) (delimiter : ascii) (key : str)
  : option str :=
  rest ← under prefix key;
  match PyStr.find delimiter rest with
  | None => Some key
  | Some _ => None
  end.

(** Otherwise it contributes the prefix up to and including the first
    delimiter after [prefix]. *)
Definition prefix_of_key (prefix : str) (delimiter : ascii) (key : str)
  : option str :=
  rest ← under prefix key;
  i ← PyStr.find delimiter rest;
  Some (prefix ++ take (S i) rest).

(** [bucket.list_blobs(prefix, delimiter)]: the names of the items and the
    set [iterator.prefixes]. *)
Definition list_blobs (prefix : str) (delimiter : ascii)
  : M (list str * gset str) := fun b =>
  match request (CallList prefix) b with
  | (Some f, b') => (Raise (fault_exn f), b')
  | (None, b') =>
      let keys := (map_to_list (objects b')).*1 in
      (Ok (omap (item_of prefix delimiter) keys,
           list_to_set (omap (prefix_of_key prefix delimiter) keys)),
       b')
  end.
End Gcloud.

(** ** The buffered remote file: [GCloudFile] *)

Record GCloudFile : Type := mkGCloudFile {
  _dirty : bool;
  _tmpfile : pyfile;
  _blob : option str }.

Module GCloudFile.

(** [__init__(self, blob)] *)
Definition init (blob : option str) : GCloudFile :=
  mkGCloudFile false PyFile.empty blob.

(** [write(self, content)] (lines 80-82): the flag is set, then the bytes
    go to the temporary file. *)
Definition write (content : bytes) (f : GCloudFile)
  : result unit * GCloudFile :=
  let f := mkGCloudFile true (_tmpfile f) (_blob f) in
  match PyFile.write content (_tmpfile f) with
  | Ok t => (Ok tt, mkGCloudFile (_dirty f) t (_blob f))
  | Raise e => (Raise e, f)
  end.

(** [read] and [seek] are proxied to the temporary file by [File]. *)
Definition read (n : option nat) (f : GCloudFile)
  : result bytes * GCloudFile :=
  match PyFile.read n (_tmpfile f) with
  | Ok (got, t) => (Ok got, mkGCloudFile (_dirty f) t (_blob f))
  | Raise e => (Raise e, f)
  end.

Definition seek (p : nat) (f : GCloudFile) : result unit * GCloudFile :=
  match PyFile.seek p (_tmpfile f) with
  | Ok t => (Ok tt, mkGCloudFile (_dirty f) t (_blob f))
  | Raise e => (Raise e, f)
  end.

(** [close(self)] (lines 84-89) *)
Definition close (f : GCloudFile) (b : bucket)
  : result unit * GCloudFile * bucket :=
  if _dirty f then
    match _blob f with
    | None => (Raise AttributeError, f, b)
    | Some key =>
        match Gcloud.upload_from_file key (_tmpfile f) true b with
        | (Ok _, t, b') =>
            (Ok tt, mkGCloudFile false (PyFile.close t) (_blob f), b')
        | (Raise e, t, b') =>
            (Raise e, mkGCloudFile (_dirty f) t (_blob f), b')
        end
    end
  else (Ok tt, mkGCloudFile false (PyFile.close (_tmpfile f)) (_blob f), b).

(** What a caller does with an open file between opening and closing. *)
Inductive op : Type :=
  | Write (content : bytes)
  | Read (n : option nat)
  | Seek (p : nat).

Definition is_write (o : op) : bool :=
  match o with Write _ => true | _ => false end.

Definition step (o : op) (f : GCloudFile) : result unit * GCloudFile :=
  match o with
  | Write c => write c f
  | Read n => let '(r, f') := read n f in
              (match r with Ok _ => Ok tt | Raise e => Raise e end, f')
  | Seek p => seek p f
  end.

(** The calls are made in order; the first one that raises ends the run. *)
Fixpoint run (ops : list op) (f : GCloudFile) : result unit * GCloudFile :=
  match ops with
  | [] => (Ok tt, f)
  | o :: rest =>
      match step o f with
      | (Ok _, f') => run rest f'
      | (Raise e, f') => (Raise e, f')
      end
  end.
End GCloudFile.

(** ** The storage facade: [DjangoGCloudStorage] *)

Section Storage.
Variable check_bracketed_netloc : str -> bool.

(** [self.bucket_subdir = ''] (line 114) *)
Definition bucket_subdir : str := [].

(** [smart_str(name, encoding='utf-8')] leaves text as it is. *)
Definition prepare_name (name : str) : str := name.

Definition remove_prefix (target prefix : str) : str :=
  if PyStr.startswith target prefix then drop (length prefix) target
  else target.

(** The first two lines of every method. *)
Definition resolve (name : str) : M str :=
  name ← lift (safe_join check_bracketed_netloc bucket_subdir name);
  mret (prepare_name name).

(** [_save(self, name, content)] (lines 137-145): [upload_from_file] is
    called without a [size], so the client first asks the file object for
    its descriptor and raises [ValueError], before any request, when there
    is none; otherwise it uploads [content] from its cursor. The file object
    is the caller's. *)
Definition _save (name : str) (content : content_file) : M (str * pyfile) :=
  name ← resolve name;
  if has_fileno content then
    ((fun b =>
        match Gcloud.upload_from_file name (file_of content) false b with
        | (Ok _, c, b') => (Ok (name, c), b')
        | (Raise e, _, b') => (Raise e, b')
        end) : M (str * pyfile))
  else raise ValueError.

(** [_open(self, name, mode)] (lines 147-158): the download is written
    through the [write] method of the new [GCloudFile]. *)
Definition _open (name : str) : M GCloudFile :=
  name ← resolve name;
  blob ← Gcloud.get_blob name;
  let tmpfile := GCloudFile.init (const name <$> blob) in
  match blob with
  | None => raise AttributeError
  | Some _ =>
      body ← Gcloud.download name;
      let '(r, tmpfile) := GCloudFile.write body tmpfile in
      _ ← lift r;
      let '(r, tmpfile) := GCloudFile.seek 0 tmpfile in
      _ ← lift r;
      mret tmpfile
  end.

(** [created_time] (lines 160-170): [blob._properties] is read without a
    test for [None]. *)
Definition created_time (name : str) : M (option Z) :=
  name ← resolve name;
  blob ← Gcloud.get_blob name;
  match blob with
  | None => raise AttributeError
  | Some o => mret (timeCreated o)
  end.

Definition delete (name : str) : M unit :=
  name ← resolve name;
  except_NotFound (Gcloud.delete_blob name).

Definition exists_ (name : str) : M bool :=
  name ← resolve name;
  blob ← Gcloud.get_blob name;
  mret (bool_decide (is_Some blob)).

Definition size_ (name : str) : M (option nat) :=
  name ← resolve name;
  blob ← Gcloud.get_blob name;
  mret (size <$> blob).

Definition modified_time (name : str) : M (option Z) :=
  name ← resolve name;
  blob ← Gcloud.get_blob name;
  mret (updated <$> blob).

(** The order of [list.sort()] on text: by code point, a proper prefix
    first. *)
Definition str_le (a b : str) : Prop :=
  String.le (string_of_list_ascii a) (string_of_list_ascii b).

#[global] Instance str_le_dec : RelDecision str_le.
Proof. intros a b. unfold str_le. apply _. Defined.

Definition sort : list str -> list str := merge_sort str_le.

Definition listdir (path : str) : M (list str * list str) :=
  path ← resolve path;
  '(names, prefixes) ← Gcloud.list_blobs path PyStr.slash;
  let items := (fun name => remove_prefix name path) <$> names in
  let dirs :=
    (fun prefix =>
       PyStr.rstrip (PyStr.is_char PyStr.slash) (remove_prefix prefix path))
      <$> elements prefixes in
  mret (sort dirs, sort items).
End Storage.

(** ** Concrete instances used by the examples *)

(** A check that lets every bracketed host through; no example below has a
    bracketed host. *)
Definition no_check : str -> bool := fun _ => true.

Definition empty_bucket : bucket := mkBucket ∅ 0 [] [].

Definition text (s : string) : bytes := list_byte_of_string s.

(** The bucket of the listing scenario. *)
Definition photo : Blob := mkBlob (text "jpeg") 1 (Some 1%Z).

(** The two keys of the scenario exactly as the spec writes them. *)
Definition bare_photos : bucket :=
  mkBucket {[ py "photos/a.jpg" := photo; py "photos/sub/b.jpg" := photo ]}
           2 [] [].

(** The same two files under the keys that the facade gives them. *)
Definition stored_photos : bucket :=
  mkBucket {[ py "/photos/a.jpg" := photo; py "/photos/sub/b.jpg" := photo ]}
           2 [] [].

(** ** Names that the URL parser leaves alone *)

(** A character that means nothing to the URL parser: no control character
    or space, no separator, none of [: ? # ;]. *)
Definition plain_char (c : ascii) : bool :=
  negb (Urllib.c0_control_or_space c) && negb (bool_decide (c ∈ py "/:?#;")).

(** A segment that is not empty, not [.] or [..], and made of plain
    characters. *)
Definition plain_segment (seg : str) : bool :=
  Urllib.nonempty seg && forallb plain_char seg
  && negb (bool_decide (seg ∈ [py "."; py ".."])).

(** A root whose segments, once the separators at both ends are stripped,
    are all plain (or that is empty then). *)
Definition plain_root (base : str) : bool :=
  match PyStr.rstrip (PyStr.is_char PyStr.slash)
          (PyStr.lstrip (PyStr.is_char PyStr.slash) base) with
  | [] => true
  | r => forallb plain_segment (PyStr.split PyStr.slash r)
  end.

(** A character that the parser neither strips nor treats as a delimiter;
    the separator is one. *)
Definition quiet (c : ascii) : Prop :=
  Urllib.c0_control_or_space c = false /\ c ∉ py ":?#;".

Definition plain (seg : str) : Prop := plain_segment seg = true.

(** A segment that is plain or empty. *)
Definition mild (seg : str) : Prop := seg = [] \/ plain seg.

(** ** Roots and names that [safe_join] joins as they are *)

(** A segment that the resolution of [urljoin] drops or climbs on. *)
Definition dot_segment (seg : str) : bool :=
  bool_decide (seg ∈ [py "."; py ".."]).

(** A character that the parser leaves in the path of a root: not a tab, a
    carriage return or a line feed (the parser removes them), not [?] or
    [#] (they end the path). *)
Definition root_char (c : ascii) : bool :=
  negb (Urllib.unsafe_url_byte c) && negb (bool_decide (c ∈ py "?#")).

(** A root made of such characters whose segments, once the separators at
    both ends are stripped, are not empty and not [.] or [..] (or that is
    empty then). *)
Definition clean_root (base : str) : bool :=
  forallb root_char base
  && match PyStr.rstrip (PyStr.is_char PyStr.slash)
             (PyStr.lstrip (PyStr.is_char PyStr.slash) base) with
     | [] => true
     | r => forallb (fun seg => Urllib.nonempty seg && negb (dot_segment seg))
              (PyStr.split PyStr.slash r)
     end.

(** A name that, once its leading separators are stripped, the parser reads
    as a reference without scheme or host and gives back unchanged, and
    whose path has no [.] or [..] segment. Empty segments, spaces, and a
    part after [;], [?] or [#] are allowed. *)
Definition clean_name (check_bracketed_netloc : str -> bool) (path : str)
  : bool :=
  match Urllib.urlparse check_bracketed_netloc (normalize_path path) [] with
  | Ok u =>
      bool_decide (Urllib.scheme u = [] /\ Urllib.netloc u = []
                   /\ Urllib.urlunparse u = normalize_path path)
      && forallb (fun seg => negb (dot_segment seg))
           (PyStr.split PyStr.slash (Urllib.path u))
  | Raise _ => false
  end.

(** What [filter_middle] leaves of the segments after the first one: the
    empty ones are dropped, except the last. *)
Definition squeeze (l : list str) : list str :=
  match l with
  | [] => []
  | _ => filter (fun s => Urllib.nonempty s) (removelast l) ++ [List.last l []]
  end.

(** ** Further methods of the file and of the facade *)

(** [_update_blob(self)] (lines 77-78): the upload of [close], without
    touching the flag or closing the temporary file. *)
Definition _update_blob (f : GCloudFile) (b : bucket)
  : result unit * GCloudFile * bucket :=
  match _blob f with
  | None => (Raise AttributeError, f, b)
  | Some key =>
      let '(r, t, b') := Gcloud.upload_from_file key (_tmpfile f) true b in
      (r, mkGCloudFile (_dirty f) t (_blob f), b')
  end.

Section Url.
Variable check_bracketed_netloc : str -> bool.

(** [blob.generate_signed_url(expiration)]: signing is done by the client
    with the credentials of the service account and sends nothing to the
    bucket; the signature itself is a parameter. *)
Variable generate_signed_url : str -> Z -> str.

(** [url(self, name)] (lines 221-225). [clock] is [datetime.datetime.now()]
    in seconds; it is read only once the blob is there. *)
Definition url (clock : Z) (name : str) : M str :=
  name ← resolve check_bracketed_netloc name;
  blob ← Gcloud.get_blob name;
  match blob with
  | None => raise AttributeError
  | Some _ => mret (generate_signed_url name (clock + 3600))
  end.
End Url.

(** ** Shapes of text used in the statements *)

(** Two separators in a row somewhere in the text. *)
Fixpoint doubled (s : str) : bool :=
  match s with
  | c :: t =>
      match t with
      | c' :: _ =>
          PyStr.is_char PyStr.slash c && PyStr.is_char PyStr.slash c'
          || doubled t
      | [] => false
      end
  | [] => false
  end.

(** The number of segments of the normalised root. *)
Definition depth (base : str) : nat :=
  length (filter (fun seg => Urllib.nonempty seg)
            (PyStr.split PyStr.slash (normalize_base base))).

(** * Properties of the buffered remote file *)

Section FileFacts.
Import GCloudFile.

Lemma step_open o f :
  closed (_tmpfile f) = false ->
  exists f', step o f = (Ok tt, f')
    /\ _blob f' = _blob f
    /\ closed (_tmpfile f') = false
    /\ _dirty f' = _dirty f || is_write o.
Proof.
  intros Hc. destruct f as [d [dat p c] bl]; simpl in *; subst c.
  destruct o as [c|n|p']; simpl.
  - unfold write, PyFile.write; simpl. destruct c; simpl;
      eexists; (split; [reflexivity|]); simpl;
      rewrite orb_true_r; auto.
  - unfold read, PyFile.read; simpl.
    eexists; (split; [reflexivity|]); simpl; rewrite orb_false_r; auto.
  - unfold seek, PyFile.seek; simpl.
    eexists; (split; [reflexivity|]); simpl; rewrite orb_false_r; auto.
Qed.

(** A run on an open file never raises; it keeps the blob, leaves the
    temporary file open, and the flag records whether a write was made. *)
Lemma run_open ops : forall f,
  closed (_tmpfile f) = false ->
  exists f', run ops f = (Ok tt, f')
    /\ _blob f' = _blob f
    /\ closed (_tmpfile f') = false
    /\ _dirty f' = _dirty f || existsb is_write ops.
Proof.
  induction ops as [|o ops IH]; intros f Hc; simpl.
  - exists f. rewrite orb_false_r. auto.
  - destruct (step_open o f Hc) as (f1 & -> & Hb & Hc1 & Hd).
    destruct (IH f1 Hc1) as (f' & Hr & Hb' & Hc' & Hd').
    exists f'. rewrite Hr, Hb', Hb, Hd', Hd, orb_assoc. auto.
Qed.

(** Writes made one after the other at the end of the buffer append. *)
Lemma run_writes cs : forall f,
  closed (_tmpfile f) = false ->
  pos (_tmpfile f) = length (data (_tmpfile f)) ->
  exists f', run (Write <$> cs) f = (Ok tt, f')
    /\ data (_tmpfile f') = data (_tmpfile f) ++ concat cs
    /\ pos (_tmpfile f') = length (data (_tmpfile f')).
Proof.
  induction cs as [|c cs IH]; intros f Hc Hp; simpl.
  - exists f. rewrite app_nil_r. auto.
  - destruct f as [d [dat p cl] bl]; simpl in *; subst cl p.
    unfold write, PyFile.write; simpl.
    destruct c as [|x c]; simpl.
    + destruct (IH (mkGCloudFile true (mkFile dat (length dat) false) bl))
        as (f' & Hr & Hd & Hp'); [reflexivity..|].
      exists f'. auto.
    + rewrite take_ge, Nat.sub_diag by lia; simpl.
      rewrite drop_ge by lia. rewrite !app_nil_r.
      destruct (IH (mkGCloudFile true
                      (mkFile (dat ++ x :: c) (length dat + S (length c))
                              false) bl))
        as (f' & Hr & Hd & Hp'); [reflexivity|..].
      { simpl. rewrite length_app. reflexivity. }
      exists f'. split; [exact Hr|]. split; [|exact Hp'].
      simpl in Hd. rewrite Hd, <- app_assoc. reflexivity.
Qed.

Lemma upload_count_snoc b c o n fs :
  upload_count (mkBucket o n (calls b ++ [c]) fs)
  = upload_count b + (if is_upload c then 1 else 0).
Proof.
  unfold upload_count; simpl. rewrite filter_app, length_app.
  f_equal. destruct c; reflexivity.
Qed.
End FileFacts.

(** C2: between opening and closing, [close] makes at most one upload
    request, and exactly one when a write call was made; that request carries
    the whole buffer from offset zero, wherever the cursor stands, and writes
    made one after the other on a new file are uploaded in the order they
    were made. *)
Theorem close_uploads_buffer_once
    (key : str) (f0 f : GCloudFile) (ops : list GCloudFile.op) (b : bucket) :
  closed (_tmpfile f0) = false ->
  _blob f0 = Some key ->
  GCloudFile.run ops f0 = (Ok tt, f) ->
  let '(r, f', b') := GCloudFile.close f b in
  upload_count b' <= upload_count b + 1
  /\ (existsb GCloudFile.is_write ops = true ->
      calls b' = calls b ++ [CallUpload key (data (_tmpfile f))]
      /\ upload_count b' = upload_count b + 1
      /\ (next_fault b = None ->
          r = Ok tt
          /\ content <$> objects b' !! key = Some (data (_tmpfile f))))
  /\ (forall cs, f0 = GCloudFile.init (Some key) ->
      ops = GCloudFile.Write <$> cs ->
      data (_tmpfile f) = concat cs).
Proof.
  intros Hc Hb Hrun.
  destruct (run_open ops f0 Hc) as (f1 & Hr1 & Hb1 & Hc1 & Hd1).
  rewrite Hrun in Hr1. injection Hr1 as <-.
  assert (Hws : forall cs, f0 = GCloudFile.init (Some key) ->
            ops = GCloudFile.Write <$> cs -> data (_tmpfile f) = concat cs).
  { intros cs -> ->.
    destruct (run_writes cs (GCloudFile.init (Some key)))
      as (f2 & Hr2 & Hd2 & _); auto.
    rewrite Hrun in Hr2. injection Hr2 as <-. exact Hd2. }
  unfold GCloudFile.close. rewrite Hb1, Hb.
  destruct (_dirty f) eqn:Hdirty.
  - unfold Gcloud.upload_from_file. rewrite Hc1. simpl.
    unfold request. rewrite drop_0.
    destruct (next_fault b) as [flt|] eqn:Hf; simpl.
    + rewrite (upload_count_snoc b). simpl.
      split; [lia|]. split; [|exact Hws].
      intros _. split; [reflexivity|]. split; [reflexivity|]. discriminate.
    + rewrite (upload_count_snoc b). simpl.
      split; [lia|]. split; [|exact Hws].
      intros _. split; [reflexivity|]. split; [reflexivity|].
      intros _. split; [reflexivity|].
      rewrite lookup_insert_eq. reflexivity.
  - split; [lia|]. split; [|exact Hws].
    intros Hw. rewrite Hw, orb_true_r in Hd1. discriminate.
Qed.

Lemma close_uploads_buffer_once_witness :
  let key := py "/notes.txt" in
  let ops := [GCloudFile.Write (text "ab"); GCloudFile.Read (Some 1);
              GCloudFile.Seek 1; GCloudFile.Write (text "cd")] in
  let f := mkGCloudFile true (mkFile (text "acd") 3 false) (Some key) in
  let '(r, f', b') := GCloudFile.close f empty_bucket in
  upload_count b' <= upload_count empty_bucket + 1
  /\ (existsb GCloudFile.is_write ops = true ->
      calls b' = calls empty_bucket ++ [CallUpload key (data (_tmpfile f))]
      /\ upload_count b' = upload_count empty_bucket + 1
      /\ (next_fault empty_bucket = None ->
          r = Ok tt
          /\ content <$> objects b' !! key = Some (data (_tmpfile f))))
  /\ (forall cs, GCloudFile.init (Some key) = GCloudFile.init (Some key) ->
      ops = GCloudFile.Write <$> cs ->
      data (_tmpfile f) = concat cs).
Proof.
  exact (close_uploads_buffer_once (py "/notes.txt")
           (GCloudFile.init (Some (py "/notes.txt")))
           (mkGCloudFile true (mkFile (text "acd") 3 false)
              (Some (py "/notes.txt")))
           [GCloudFile.Write (text "ab"); GCloudFile.Read (Some 1);
            GCloudFile.Seek 1; GCloudFile.Write (text "cd")]
           empty_bucket eq_refl eq_refl eq_refl).
Defined.

(** C5, as stated, fails: a write call that carries no bytes still sets the
    flag, and [close] then uploads the (empty) buffer. *)
Lemma empty_write_still_uploads :
  let ops := [GCloudFile.Write []] in
  let f := (GCloudFile.run ops (GCloudFile.init (Some (py "/k")))).2 in
  Forall (fun o => forall c, o = GCloudFile.Write c -> c = []) ops
  /\ upload_count (GCloudFile.close f empty_bucket).2 = 1
  /\ upload_count (GCloudFile.close f empty_bucket).2 <> 0.
Proof.
  simpl. split.
  - constructor; [|constructor]. intros c [= <-]. reflexivity.
  - split; [reflexivity|discriminate].
Qed.

(** C5, amended: on a file made by the constructor, when no write call is
    made before [close], [close] sends nothing to the bucket (no upload
    request), raises nothing, and leaves the file clean and closed. *)
Theorem close_without_write_uploads_nothing
    (blob : option str) (ops : list GCloudFile.op) (f : GCloudFile)
    (b : bucket) :
  GCloudFile.run ops (GCloudFile.init blob) = (Ok tt, f) ->
  existsb GCloudFile.is_write ops = false ->
  GCloudFile.close f b
  = (Ok tt, mkGCloudFile false (PyFile.close (_tmpfile f)) blob, b)
  /\ upload_count (GCloudFile.close f b).2 = upload_count b.
Proof.
  intros Hrun Hw.
  destruct (run_open ops (GCloudFile.init blob) eq_refl)
    as (f1 & Hr1 & Hb1 & _ & Hd1).
  rewrite Hrun in Hr1. injection Hr1 as <-.
  rewrite Hw in Hd1. simpl in Hd1, Hb1.
  unfold GCloudFile.close. rewrite Hd1, Hb1. simpl. auto.
Qed.

Lemma close_without_write_uploads_nothing_witness :
  let f := mkGCloudFile false (mkFile [] 4 false) (Some (py "/k")) in
  GCloudFile.close f empty_bucket
  = (Ok tt, mkGCloudFile false (PyFile.close (_tmpfile f)) (Some (py "/k")),
     empty_bucket)
  /\ upload_count (GCloudFile.close f empty_bucket).2
     = upload_count empty_bucket.
Proof.
  exact (close_without_write_uploads_nothing (Some (py "/k"))
           [GCloudFile.Read None; GCloudFile.Seek 4]
           (mkGCloudFile false (mkFile [] 4 false) (Some (py "/k")))
           empty_bucket eq_refl eq_refl).
Defined.

(** C8: when the upload made by [close] on a dirty file fails, [close]
    raises the collaborator's error as it is, after a single attempt; the
    flag stays set, the buffer keeps its contents and stays open, and the
    bucket's objects are untouched. A second [close] that the service
    accepts uploads the same whole buffer. *)
Theorem failed_upload_keeps_file_dirty
    (key : str) (f : GCloudFile) (b : bucket) (flt : fault) :
  _dirty f = true ->
  _blob f = Some key ->
  closed (_tmpfile f) = false ->
  next_fault b = Some flt ->
  let '(r1, f1, b1) := GCloudFile.close f b in
  r1 = Raise (fault_exn flt)
  /\ _dirty f1 = true
  /\ data (_tmpfile f1) = data (_tmpfile f)
  /\ closed (_tmpfile f1) = false
  /\ objects b1 = objects b
  /\ calls b1 = calls b ++ [CallUpload key (data (_tmpfile f))]
  /\ (next_fault b1 = None ->
      let '(r2, f2, b2) := GCloudFile.close f1 b1 in
      r2 = Ok tt
      /\ calls b2 = calls b1 ++ [CallUpload key (data (_tmpfile f))]
      /\ content <$> objects b2 !! key = Some (data (_tmpfile f))
      /\ _dirty f2 = false
      /\ closed (_tmpfile f2) = true).
Proof.
  intros Hd Hb Hc Hf.
  destruct f as [d [dat p c] bl]; simpl in *; subst d c bl.
  unfold GCloudFile.close, Gcloud.upload_from_file, request; simpl.
  rewrite Hf, drop_0. simpl.
  repeat (split; [reflexivity|]).
  intros Hf1. rewrite Hf1, drop_0. simpl.
  repeat (split; [reflexivity|]).
  split; [|auto]. rewrite lookup_insert_eq. reflexivity.
Qed.

Lemma failed_upload_keeps_file_dirty_witness :
  let key := py "/k" in
  let f := mkGCloudFile true (mkFile (text "abc") 1 false) (Some key) in
  let b := mkBucket ∅ 0 [] [Some (mkFault (RemoteError 503) 2)] in
  let '(r1, f1, b1) := GCloudFile.close f b in
  r1 = Raise (RemoteError 503)
  /\ _dirty f1 = true
  /\ data (_tmpfile f1) = text "abc"
  /\ closed (_tmpfile f1) = false
  /\ objects b1 = objects b
  /\ calls b1 = calls b ++ [CallUpload key (text "abc")]
  /\ (next_fault b1 = None ->
      let '(r2, f2, b2) := GCloudFile.close f1 b1 in
      r2 = Ok tt
      /\ calls b2 = calls b1 ++ [CallUpload key (text "abc")]
      /\ content <$> objects b2 !! key = Some (text "abc")
      /\ _dirty f2 = false
      /\ closed (_tmpfile f2) = true).
Proof.
  exact (failed_upload_keeps_file_dirty (py "/k")
           (mkGCloudFile true (mkFile (text "abc") 1 false) (Some (py "/k")))
           (mkBucket ∅ 0 [] [Some (mkFault (RemoteError 503) 2)])
           (mkFault (RemoteError 503) 2) eq_refl eq_refl eq_refl eq_refl).
Defined.

(** C10: once [close] has returned normally, a second [close] raises
    nothing, sends nothing to the bucket, and changes nothing. *)
Theorem close_twice_is_close_once
    (f f1 : GCloudFile) (b b1 : bucket) :
  GCloudFile.close f b = (Ok tt, f1, b1) ->
  GCloudFile.close f1 b1 = (Ok tt, f1, b1)
  /\ _dirty f1 = false
  /\ upload_count (GCloudFile.close f1 b1).2 = upload_count b1.
Proof.
  unfold GCloudFile.close. intros H.
  destruct (_dirty f) eqn:Hd.
  - destruct (_blob f) as [key|] eqn:Hb; [|discriminate].
    destruct (Gcloud.upload_from_file key (_tmpfile f) true b)
      as [[[[]|e] t] b'] eqn:Hu; [|discriminate].
    injection H as <- <-. simpl. auto.
  - injection H as <- <-. simpl. auto.
Qed.

Lemma close_twice_is_close_once_witness :
  let f := mkGCloudFile true (mkFile (text "abc") 1 false) (Some (py "/k")) in
  let f1 := (GCloudFile.close f empty_bucket).1.2 in
  let b1 := (GCloudFile.close f empty_bucket).2 in
  GCloudFile.close f1 b1 = (Ok tt, f1, b1)
  /\ _dirty f1 = false
  /\ upload_count (GCloudFile.close f1 b1).2 = upload_count b1.
Proof.
  exact (close_twice_is_close_once
           (mkGCloudFile true (mkFile (text "abc") 1 false) (Some (py "/k")))
           _ empty_bucket _ eq_refl).
Defined.

(** * Properties of the storage facade *)

Ltac run_facade :=
  unfold _open, created_time, delete, exists_, size_, modified_time, resolve,
    except_NotFound, Gcloud.get_blob, Gcloud.download, Gcloud.delete_blob,
    prepare_name, request, raise, lift, mbind, M_bind, mret, M_ret; simpl.

Lemma write_init (c : bytes) (blob : option str) :
  GCloudFile.write c (GCloudFile.init blob)
  = (Ok tt, mkGCloudFile true (mkFile c (length c) false) blob).
Proof.
  unfold GCloudFile.write, GCloudFile.init, PyFile.write. simpl.
  destruct c; simpl; rewrite ?app_nil_r; reflexivity.
Qed.

(** C3 does not hold of the code. [_open] hands the new [GCloudFile] itself
    to the download, so the downloaded bytes arrive through
    [GCloudFile.write]: the buffer holds the remote content with the cursor
    at the start, but the flag is set, and a [close] that follows directly
    uploads the unchanged content again. *)
Theorem open_marks_file_dirty
    (chk : str -> bool) (name key : str) (o : Blob) (b : bucket) :
  safe_join chk bucket_subdir name = Ok key ->
  objects b !! key = Some o ->
  faults b = [] ->
  exists f b1,
    _open chk name b = (Ok f, b1)
    /\ _blob f = Some key
    /\ closed (_tmpfile f) = false
    /\ data (_tmpfile f) = content o
    /\ pos (_tmpfile f) = 0
    /\ _dirty f = true
    /\ upload_count b1 = upload_count b
    /\ (GCloudFile.close f b1).1.1 = Ok tt
    /\ calls (GCloudFile.close f b1).2 = calls b1 ++ [CallUpload key (content o)]
    /\ upload_count (GCloudFile.close f b1).2 = upload_count b + 1.
Proof.
  intros Hj Ho Hf. run_facade. rewrite Hj. simpl.
  unfold next_fault. rewrite Hf. simpl. rewrite Ho. simpl. rewrite Ho.
  rewrite write_init.
  simpl. eexists _, _. split; [reflexivity|]. simpl.
  repeat (split; [reflexivity|]).
  split.
  { unfold upload_count. simpl. rewrite <- app_assoc, filter_app. simpl.
    rewrite app_nil_r. reflexivity. }
  unfold GCloudFile.close, Gcloud.upload_from_file, request, next_fault. simpl.
  repeat (split; [reflexivity|]).
  unfold upload_count. simpl. rewrite <- !app_assoc, filter_app, length_app.
  reflexivity.
Qed.

Lemma open_marks_file_dirty_witness :
  let b := mkBucket {[ py "/a.txt" := mkBlob (text "abc") 7 (Some 7%Z) ]}
             8 [] [] in
  exists f b1,
    _open no_check (py "a.txt") b = (Ok f, b1)
    /\ _blob f = Some (py "/a.txt")
    /\ closed (_tmpfile f) = false
    /\ data (_tmpfile f) = text "abc"
    /\ pos (_tmpfile f) = 0
    /\ _dirty f = true
    /\ upload_count b1 = upload_count b
    /\ (GCloudFile.close f b1).1.1 = Ok tt
    /\ calls (GCloudFile.close f b1).2
       = calls b1 ++ [CallUpload (py "/a.txt") (text "abc")]
    /\ upload_count (GCloudFile.close f b1).2 = upload_count b + 1.
Proof.
  intros b.
  apply (open_marks_file_dirty no_check (py "a.txt") (py "/a.txt")
           (mkBlob (text "abc") 7 (Some 7%Z)) b).
  - reflexivity.
  - vm_compute. reflexivity.
  - reflexivity.
Defined.

(** C6 does not hold of the code: for a name that resolves to a key with no
    object, [exists] answers [False] and [size] and [modified_time] answer
    [None], but [created_time] reads [blob._properties] of [None] and raises
    [AttributeError]. *)
Theorem created_time_raises_on_missing_object
    (chk : str -> bool) (name key : str) (b : bucket) :
  safe_join chk bucket_subdir name = Ok key ->
  objects b !! key = None ->
  next_fault b = None ->
  (exists_ chk name b).1 = Ok false
  /\ (size_ chk name b).1 = Ok None
  /\ (modified_time chk name b).1 = Ok None
  /\ (created_time chk name b).1 = Raise AttributeError.
Proof.
  intros Hj Ho Hf. run_facade. rewrite Hj. simpl.
  rewrite Hf, Ho. simpl. auto.
Qed.

Lemma created_time_raises_on_missing_object_witness :
  (exists_ no_check (py "missing.txt") empty_bucket).1 = Ok false
  /\ (size_ no_check (py "missing.txt") empty_bucket).1 = Ok None
  /\ (modified_time no_check (py "missing.txt") empty_bucket).1 = Ok None
  /\ (created_time no_check (py "missing.txt") empty_bucket).1
     = Raise AttributeError.
Proof.
  exact (created_time_raises_on_missing_object no_check (py "missing.txt")
           (py "/missing.txt") empty_bucket eq_refl eq_refl eq_refl).
Defined.

(** C7: for a name that resolves, [delete] on a key with no object returns
    normally and leaves the objects as they were; whenever the collaborator
    raises [NotFound], [delete] returns normally, and any other error of the
    collaborator comes out of [delete] as it is. *)
Theorem delete_swallows_only_NotFound
    (chk : str -> bool) (name key : str) (b : bucket) :
  safe_join chk bucket_subdir name = Ok key ->
  (objects b !! key = None -> next_fault b = None ->
   (Gcloud.delete_blob key b).1 = Raise NotFound
   /\ (delete chk name b).1 = Ok tt
   /\ objects (delete chk name b).2 = objects b)
  /\ ((Gcloud.delete_blob key b).1 = Raise NotFound ->
      (delete chk name b).1 = Ok tt)
  /\ (forall e, e <> NotFound ->
      (Gcloud.delete_blob key b).1 = Raise e ->
      (delete chk name b).1 = Raise e).
Proof.
  intros Hj. split; [|split].
  - intros Ho Hf. run_facade. rewrite Hj. simpl.
    rewrite Hf, Ho. simpl. auto.
  - unfold delete, resolve, except_NotFound, lift, mbind, M_bind, mret, M_ret.
    rewrite Hj. unfold prepare_name.
    destruct (Gcloud.delete_blob key b) as [[[]|e] b']; simpl;
      [discriminate|]. intros [= ->]. reflexivity.
  - intros e Hne.
    unfold delete, resolve, except_NotFound, lift, mbind, M_bind, mret, M_ret.
    rewrite Hj. unfold prepare_name.
    destruct (Gcloud.delete_blob key b) as [[[]|e'] b']; simpl;
      [discriminate|]. intros [= ->]. destruct e; try reflexivity.
    contradiction.
Qed.

Lemma delete_swallows_only_NotFound_witness :
  let b := mkBucket ∅ 0 [] [Some (mkFault (RemoteError 500) 0)] in
  ((Gcloud.delete_blob (py "/gone.txt") empty_bucket).1 = Raise NotFound
   /\ (delete no_check (py "gone.txt") empty_bucket).1 = Ok tt
   /\ objects (delete no_check (py "gone.txt") empty_bucket).2
      = objects empty_bucket)
  /\ (delete no_check (py "gone.txt") b).1 = Raise (RemoteError 500).
Proof.
  intros b. split.
  - exact (proj1 (delete_swallows_only_NotFound no_check (py "gone.txt")
                    (py "/gone.txt") empty_bucket eq_refl)
             eq_refl eq_refl).
  - apply (proj2 (proj2 (delete_swallows_only_NotFound no_check
                           (py "gone.txt") (py "/gone.txt") b eq_refl))).
    + discriminate.
    + reflexivity.
Defined.

(** ** Text lemmas *)

Section TextFacts.
Import PyStr.

Lemma find_None c s : find c s = None <-> c ∉ s.
Proof.
  induction s as [|x s IH]; simpl.
  - split; [intros _; apply not_elem_of_nil|done].
  - destruct (decide (x = c)) as [->|Hne].
    + split; [done|]. intros H. exfalso. apply H. left.
    + rewrite not_elem_of_cons. destruct (find c s); simpl.
      * split; [done|]. intros [_ H]. apply IH in H. done.
      * split; [|done]. intros _. split; [congruence|]. by apply IH.
Qed.

Lemma find_Some c s i :
  find c s = Some i -> (c ∉ take i s) /\ s !! i = Some c.
Proof.
  revert i. induction s as [|x s IH]; intros i; simpl; [done|].
  destruct (decide (x = c)) as [->|Hne].
  - intros [= <-]. simpl. split; [apply not_elem_of_nil|done].
  - destruct (find c s) as [j|]; simpl; [|done].
    intros [= <-]. destruct (IH j eq_refl) as [Hn Hd]. simpl.
    split; [|done]. rewrite not_elem_of_cons. split; [congruence|done].
Qed.

Lemma find_app c d t : c ∉ d -> find c (d ++ c :: t) = Some (length d).
Proof.
  induction d as [|x d IH]; simpl; intros Hn.
  - rewrite decide_True by done. done.
  - apply not_elem_of_cons in Hn as [Hne Hn].
    rewrite decide_False by congruence. rewrite IH by done. done.
Qed.

Lemma lstrip_head p s :
  match lstrip p s with [] => True | c :: _ => p c = false end.
Proof.
  induction s as [|x s IH]; simpl; [done|].
  destruct (p x) eqn:Hp; [done|]. simpl. done.
Qed.

Lemma lstrip_id p s :
  match s with [] => True | c :: _ => p c = false end -> lstrip p s = s.
Proof. destruct s as [|x s]; simpl; [done|]. by intros ->. Qed.

Lemma rstrip_snoc c d : c ∉ d -> rstrip (is_char c) (d ++ [c]) = d.
Proof.
  intros Hn. unfold rstrip. rewrite reverse_snoc. simpl.
  unfold is_char at 1. rewrite bool_decide_eq_true_2 by done.
  rewrite lstrip_id; [apply reverse_involutive|].
  destruct (reverse d) as [|x r] eqn:Hr; [done|].
  unfold is_char. apply bool_decide_eq_false_2. intros ->.
  apply Hn. apply elem_of_reverse. rewrite Hr. left.
Qed.

Lemma startswith_true s p : startswith s p = true <-> p `prefix_of` s.
Proof. unfold startswith. apply bool_decide_eq_true. Qed.

Lemma remove_prefix_app p t : remove_prefix (p ++ t) p = t.
Proof.
  unfold remove_prefix.
  rewrite (proj2 (startswith_true (p ++ t) p)) by apply prefix_app_r, reflexivity.
  by rewrite drop_app_length.
Qed.
End TextFacts.

#[global] Instance str_le_total : Total str_le.
Proof. intros a b. unfold str_le. apply (total String.le). Qed.

#[global] Instance str_le_trans : Transitive str_le.
Proof. intros a b c. unfold str_le. apply transitivity. Qed.

(** ** Listing a directory *)

Lemma elem_of_keys (m : gmap str Blob) (k : str) :
  k ∈ (map_to_list m).*1 <-> is_Some (m !! k).
Proof.
  rewrite list_elem_of_fmap. split.
  - intros ([k' o] & -> & H). apply elem_of_map_to_list in H. by exists o.
  - intros [o H]. exists (k, o). split; [done|]. by apply elem_of_map_to_list.
Qed.

Lemma under_Some prefix key rest :
  Gcloud.under prefix key = Some rest <-> key = prefix ++ rest.
Proof.
  unfold Gcloud.under. destruct (decide (prefix `prefix_of` key)) as [[t ->]|Hn].
  - rewrite drop_app_length. split; [by intros [= ->]|].
    intros H. apply app_inv_head in H. by subst.
  - split; [done|]. intros ->. exfalso. apply Hn. by apply prefix_app_r.
Qed.

Lemma item_of_Some prefix key name :
  Gcloud.item_of prefix PyStr.slash key = Some name
  <-> name = key /\ exists rest, key = prefix ++ rest /\ (PyStr.slash ∉ rest).
Proof.
  unfold Gcloud.item_of. destruct (Gcloud.under prefix key) as [rest|] eqn:Hu; simpl.
  - apply under_Some in Hu. subst key.
    destruct (PyStr.find PyStr.slash rest) as [i|] eqn:Hfind.
    + split; [done|]. intros (_ & rest' & Heq & Hn).
      apply app_inv_head in Heq. subst rest'.
      apply find_None in Hn. congruence.
    + apply find_None in Hfind. split.
      * intros [= <-]. split; [done|]. by exists rest.
      * by intros [-> _].
  - split; [done|]. intros (_ & rest & Heq & _).
    apply under_Some in Heq. congruence.
Qed.

Lemma prefix_of_key_Some prefix key p :
  Gcloud.prefix_of_key prefix PyStr.slash key = Some p
  <-> exists d more, key = prefix ++ d ++ PyStr.slash :: more
        /\ (PyStr.slash ∉ d) /\ p = prefix ++ d ++ [PyStr.slash].
Proof.
  unfold Gcloud.prefix_of_key.
  destruct (Gcloud.under prefix key) as [rest|] eqn:Hu; simpl.
  - apply under_Some in Hu. subst key.
    destruct (PyStr.find PyStr.slash rest) as [i|] eqn:Hfind; simpl.
    + destruct (find_Some _ _ _ Hfind) as [Hn Hd]. split.
      * intros [= <-]. exists (take i rest), (drop (S i) rest).
        split; [|split; [done|]].
        -- by rewrite take_drop_middle.
        -- by rewrite (take_S_r _ _ _ Hd).
      * intros (d & more & Heq & Hnd & ->).
        apply app_inv_head in Heq. subst rest.
        rewrite find_app in Hfind by done. injection Hfind as <-.
        f_equal. rewrite cons_middle, app_assoc.
        rewrite take_app_length'; [done|]. rewrite length_app. simpl. lia.
    + split; [done|]. intros (d & more & Heq & Hnd & _).
      apply app_inv_head in Heq. subst rest.
      rewrite find_app in Hfind by done. done.
  - split; [done|]. intros (d & more & Heq & _).
    apply under_Some in Heq. congruence.
Qed.

(** C9, as stated, fails in its scenario: the directory resolves to the key
    prefix [/photos/], and a bucket whose keys are [photos/a.jpg] and
    [photos/sub/b.jpg] has nothing under it. *)
Lemma listdir_bare_keys_lists_nothing :
  safe_join no_check bucket_subdir (py "photos/") = Ok (py "/photos/")
  /\ (listdir no_check (py "photos/") bare_photos).1 = Ok ([], [])
  /\ (listdir no_check (py "photos/") bare_photos).1
     <> Ok ([py "sub"], [py "a.jpg"]).
Proof. vm_compute. split; [reflexivity|]. split; [reflexivity|discriminate]. Qed.

(** C9, amended: [listdir] returns both lists sorted; a file is listed
    exactly when the resolved key followed by it is a key of the bucket and
    it has no separator, and a directory is listed exactly when it has no
    separator and some key starts with the resolved key, the directory and a
    separator. When [listdir] raises, the path did not resolve or the
    collaborator failed. With the keys [/photos/a.jpg] and
    [/photos/sub/b.jpg], [listdir("photos/")] is [(["sub"], ["a.jpg"])]. *)
Theorem listdir_relative_sorted (chk : str -> bool) (path : str) (b : bucket) :
  match (listdir chk path b).1 with
  | Ok (dirs, files) =>
      exists key,
        safe_join chk bucket_subdir path = Ok key
        /\ Sorted str_le dirs
        /\ Sorted str_le files
        /\ (forall f, f ∈ files <->
              (PyStr.slash ∉ f) /\ is_Some (objects b !! (key ++ f)))
        /\ (forall d, d ∈ dirs <->
              (PyStr.slash ∉ d)
              /\ exists k, is_Some (objects b !! k)
                           /\ (key ++ d ++ [PyStr.slash]) `prefix_of` k)
  | Raise e =>
      safe_join chk bucket_subdir path = Raise e
      \/ exists flt, next_fault b = Some flt /\ fault_exn flt = e
  end
  /\ (listdir chk (py "photos/") stored_photos).1
     = Ok ([py "sub"], [py "a.jpg"]).
Proof.
  split; [|vm_compute; reflexivity].
  unfold listdir, resolve, Gcloud.list_blobs, request, prepare_name, lift,
    mbind, M_bind, mret, M_ret.
  destruct (safe_join chk bucket_subdir path) as [key|e]; simpl; [|by left].
  destruct (next_fault b) as [flt|]; simpl; [right; by exists flt|].
  exists key. split; [done|].
  split; [apply Sorted_merge_sort; apply _|].
  split; [apply Sorted_merge_sort; apply _|].
  split.
  - intros f. unfold sort. rewrite merge_sort_Permutation.
    rewrite list_elem_of_fmap. setoid_rewrite list_elem_of_omap.
    setoid_rewrite elem_of_keys. setoid_rewrite item_of_Some. split.
    + intros (name & -> & k & Hk & -> & rest & -> & Hn).
      rewrite remove_prefix_app. done.
    + intros [Hn Hk]. exists (key ++ f). rewrite remove_prefix_app.
      split; [done|]. exists (key ++ f). split; [done|].
      split; [done|]. by exists f.
  - intros d. unfold sort. rewrite merge_sort_Permutation.
    rewrite list_elem_of_fmap. setoid_rewrite elem_of_elements.
    setoid_rewrite elem_of_list_to_set. setoid_rewrite list_elem_of_omap.
    setoid_rewrite elem_of_keys. setoid_rewrite prefix_of_key_Some. split.
    + intros (p & -> & k & Hk & d' & more & -> & Hn & ->).
      rewrite remove_prefix_app, rstrip_snoc by done.
      split; [done|]. exists (key ++ d' ++ PyStr.slash :: more).
      split; [done|]. exists more. by rewrite <- !app_assoc.
    + intros (Hn & k & Hk & more & ->).
      exists (key ++ d ++ [PyStr.slash]).
      rewrite remove_prefix_app, rstrip_snoc by done. split; [done|].
      eexists. split; [exact Hk|]. exists d, more.
      by rewrite <- !app_assoc.
Qed.

(** * Properties of the path resolver *)

Section ResolverFacts.
Import PyStr Urllib.
Variable chk : str -> bool.

Lemma urlsplit_raises url s e :
  urlsplit chk url s = Raise e -> e = ValueError.
Proof.
  unfold urlsplit, rbind. intros H.
  repeat case_match; simplify_eq; reflexivity.
Qed.

Lemma urlparse_raises url s e :
  urlparse chk url s = Raise e -> e = ValueError.
Proof.
  unfold urlparse, rbind. intros H.
  destruct (urlsplit chk url s) as [r|e'] eqn:Hs.
  - repeat case_match; simplify_eq.
  - injection H as <-. by eapply urlsplit_raises.
Qed.

(** The only error of [urljoin] is the [ValueError] of the parser. *)
Lemma urljoin_raises base url e :
  urljoin chk base url = Raise e -> e = ValueError.
Proof.
  unfold urljoin, rbind. intros H.
  destruct (negb (nonempty base)); [done|].
  destruct (negb (nonempty url)); [done|].
  destruct (urlparse chk base []) as [b|e1] eqn:Hb.
  - destruct (urlparse chk url (scheme b)) as [u|e2] eqn:Hu.
    + repeat case_match; simplify_eq.
    + injection H as <-. by eapply urlparse_raises.
  - injection H as <-. by eapply urlparse_raises.
Qed.

(** [lstrip] drops a prefix made of stripped characters. *)
Lemma lstrip_suffix p s :
  exists k, s = k ++ lstrip p s /\ Forall (fun c => p c = true) k.
Proof.
  induction s as [|x s (k & Hk & Hp)]; simpl.
  - by exists [].
  - destruct (p x) eqn:Hx.
    + exists (x :: k). split; [by rewrite Hk at 1|by constructor].
    + by exists [].
Qed.

Lemma rstrip_prefix p s : rstrip p s `prefix_of` s.
Proof.
  unfold rstrip. destruct (lstrip_suffix p (reverse s)) as (k & Hk & _).
  exists (reverse k). rewrite <- reverse_app, <- Hk.
  by rewrite reverse_involutive.
Qed.

Lemma rstrip_last p s :
  match last (rstrip p s) with None => True | Some c => p c = false end.
Proof.
  unfold rstrip. rewrite last_reverse.
  pose proof (lstrip_head p (reverse s)) as H.
  by destruct (lstrip p (reverse s)).
Qed.

(** The normalised root is the single separator, or text without a
    separator at either end wrapped in one separator on each side. *)
Lemma normalize_base_shape base :
  normalize_base base = py "/"
  \/ exists r, normalize_base base = slash :: r ++ [slash]
       /\ r <> [] /\ head r <> Some slash /\ last r <> Some slash.
Proof.
  unfold normalize_base.
  set (l := lstrip (is_char slash) base).
  set (r := rstrip (is_char slash) l).
  destruct (decide (slash :: r ++ [slash] = py "//")) as [|Hne]; [by left|].
  right. exists r. split; [done|].
  assert (r <> []) as Hr by (intros Hr; apply Hne; by rewrite Hr).
  split; [done|]. split.
  - destruct (rstrip_prefix (is_char slash) l) as [k Hk]. fold r in Hk.
    pose proof (lstrip_head (is_char slash) base) as Hh. fold l in Hh.
    destruct r as [|c r']; [done|]. rewrite Hk in Hh. simpl in *.
    intros [= ->]. unfold is_char in Hh.
    by rewrite bool_decide_eq_true_2 in Hh.
  - pose proof (rstrip_last (is_char slash) l) as Hl. fold r in Hl.
    destruct (last r) as [c|]; [|done]. intros [= ->].
    unfold is_char in Hl. by rewrite bool_decide_eq_true_2 in Hl.
Qed.
End ResolverFacts.

(** C1, as stated, fails: a name with a scheme, [//] and an unmatched
    bracket makes the URL parser raise [ValueError], which [safe_join] lets
    through; the call neither returns nor raises the traversal error. *)
Lemma safe_join_lets_ValueError_through :
  safe_join no_check (py "") (py "x://[") = Raise ValueError
  /\ ~ ((exists s, safe_join no_check (py "") (py "x://[") = Ok s)
        \/ (exists s r, safe_join no_check (py "") (py "x://[")
                        = Raise (SuspiciousFileOperation s r))).
Proof.
  split; [reflexivity|].
  intros [[s H]|(s & r & H)]; vm_compute in H; discriminate.
Qed.

(** C1, amended: the normalised root is the single separator or has exactly
    one leading and one trailing separator. [safe_join] returns a text that
    starts with the normalised root, or raises the traversal error, or lets
    through the [ValueError] of the URL parser. When the URL parser returns,
    the result is its separator-collapsed text, and the traversal error is
    raised exactly when that text does not start with the normalised root.
    [safe_join("/media/", "../../etc/passwd")] raises the traversal error. *)
Theorem safe_join_contained_or_raises (chk : str -> bool) (base path : str) :
  let root := normalize_base base in
  let joined := Urllib.urljoin chk root (normalize_path path) in
  (root = py "/"
   \/ exists r, root = PyStr.slash :: r ++ [PyStr.slash]
        /\ r <> [] /\ head r <> Some PyStr.slash
        /\ last r <> Some PyStr.slash)
  /\ match safe_join chk base path with
     | Ok s =>
         root `prefix_of` s
         /\ exists u, joined = Ok u /\ s = PyStr.collapse u
     | Raise (SuspiciousFileOperation s r) =>
         r = root /\ ~ root `prefix_of` s
         /\ exists u, joined = Ok u /\ s = PyStr.collapse u
     | Raise e => e = ValueError /\ joined = Raise ValueError
     end
  /\ ((exists s r, safe_join chk base path
                   = Raise (SuspiciousFileOperation s r))
      <-> exists u, joined = Ok u /\ ~ root `prefix_of` PyStr.collapse u)
  /\ safe_join chk (py "/media/") (py "../../etc/passwd")
     = Raise (SuspiciousFileOperation (py "etc/passwd") (py "/media/")).
Proof.
  intros root joined.
  split; [apply normalize_base_shape|].
  assert (Hsj : safe_join chk base path
          = match joined with
            | Ok u =>
                if negb (PyStr.startswith (PyStr.collapse u) root)
                then Raise (SuspiciousFileOperation (PyStr.collapse u) root)
                else Ok (PyStr.collapse u)
            | Raise e => Raise e
            end) by reflexivity.
  split; [|split; [|vm_compute; reflexivity]].
  - rewrite Hsj. destruct joined as [u|e] eqn:Hj.
    + destruct (PyStr.startswith (PyStr.collapse u) root) eqn:Hp; simpl.
      * apply startswith_true in Hp. split; [done|]. by exists u.
      * split; [done|]. split; [|by exists u].
        intros Hpre. apply startswith_true in Hpre. congruence.
    + apply urljoin_raises in Hj as ->. done.
  - rewrite Hsj. destruct joined as [u|e] eqn:Hj.
    + destruct (PyStr.startswith (PyStr.collapse u) root) eqn:Hp; simpl.
      * split; [intros (s & r & [=])|].
        intros (u' & [= <-] & Hn). exfalso. apply Hn.
        by apply startswith_true.
      * split; [|by eauto]. intros _. exists u. split; [done|].
        intros Hpre. apply startswith_true in Hpre. congruence.
    + apply urljoin_raises in Hj as ->.
      split; [intros (s & r & [=])|]. intros (u & [=] & _).
Qed.

Section SplitJoin.
Import PyStr.
Variable c : ascii.

Lemma split_nonnil s : split c s <> [].
Proof.
  destruct s as [|x s]; simpl; [done|].
  destruct (decide (x = c)); [done|]. by destruct (split c s).
Qed.

Lemma split_notin s : c ∉ s -> split c s = [s].
Proof.
  induction s as [|x s IH]; simpl; [done|].
  intros [Hx Hs]%not_elem_of_cons.
  rewrite decide_False by done. by rewrite IH.
Qed.

Lemma split_app s t : split c (s ++ c :: t) = split c s ++ split c t.
Proof.
  induction s as [|x s IH]; simpl.
  - by rewrite decide_True.
  - destruct (decide (x = c)); [by rewrite IH|].
    rewrite IH. pose proof (split_nonnil s). by destruct (split c s).
Qed.

Lemma join_cons seg rest :
  rest <> [] -> join c (seg :: rest) = seg ++ c :: join c rest.
Proof. by destruct rest. Qed.

Lemma join_app l1 l2 :
  l1 <> [] -> l2 <> [] -> join c (l1 ++ l2) = join c l1 ++ c :: join c l2.
Proof.
  intros H1 H2. induction l1 as [|seg l1 IH]; [done|].
  destruct l1 as [|seg' l1].
  - simpl. by destruct l2.
  - rewrite <- app_comm_cons, !join_cons by done.
    rewrite IH by done. by rewrite <- app_assoc.
Qed.

Lemma join_snoc l seg : l <> [] -> join c (l ++ [seg]) = join c l ++ c :: seg.
Proof. intros H. by rewrite join_app. Qed.

Lemma join_split s : join c (split c s) = s.
Proof.
  induction s as [|x s IH]; simpl; [done|].
  destruct (decide (x = c)) as [->|].
  - rewrite join_cons by apply split_nonnil. by rewrite IH.
  - pose proof (split_nonnil s).
    destruct (split c s) as [|seg segs]; [done|].
    rewrite <- IH. by destruct segs.
Qed.

Lemma split_join segs :
  segs <> [] -> Forall (fun seg => c ∉ seg) segs ->
  split c (join c segs) = segs.
Proof.
  intros Hne Hall. induction segs as [|seg segs IH]; [done|].
  apply Forall_cons in Hall as [Hseg Hall].
  destruct segs as [|seg' segs].
  - simpl. by apply split_notin.
  - rewrite join_cons, split_app by done.
    rewrite split_notin by done. by rewrite IH.
Qed.

Lemma Forall_join (P : ascii -> Prop) segs :
  P c -> Forall (Forall P) segs -> Forall P (join c segs).
Proof.
  intros Hc. induction 1 as [|seg segs Hseg Hall IH]; [constructor|].
  destruct segs as [|seg' segs]; [done|].
  rewrite join_cons by done. apply Forall_app. split; [done|].
  by constructor.
Qed.

Lemma head_join x seg segs : head (join c ((x :: seg) :: segs)) = Some x.
Proof. by destruct segs. Qed.
End SplitJoin.

Section QuietUrls.
Import PyStr Urllib.
Variable chk : str -> bool.

Lemma quiet_slash : quiet slash.
Proof. split; [reflexivity|]. by apply (bool_decide_eq_false_1 (_ ∈ _)). Qed.

Lemma plain_char_quiet c : plain_char c = true -> quiet c /\ c <> slash.
Proof.
  unfold plain_char. intros [H1 H2]%andb_true_iff.
  apply negb_true_iff in H1. apply negb_true_iff, bool_decide_eq_false in H2.
  split; [split; [done|]|].
  - intros Hin. apply H2. change (py "/:?#;") with (slash :: py ":?#;").
    by right.
  - intros ->. apply H2. left.
Qed.

Lemma c0_unsafe c : c0_control_or_space c = false -> unsafe_url_byte c = false.
Proof. destruct c as [[] [] [] [] [] [] [] []]; by vm_compute. Qed.

Lemma filter_safe url :
  Forall quiet url -> filter (fun c => negb (unsafe_url_byte c)) url = url.
Proof.
  induction 1 as [|x url [Hx _] Hall IH]; [done|].
  rewrite filter_cons_True; [by rewrite IH|].
  by rewrite (c0_unsafe _ Hx).
Qed.

Lemma lstrip_quiet url : Forall quiet url -> lstrip c0_control_or_space url = url.
Proof. intros H. apply lstrip_id. by destruct H as [|x url [Hx _] _]. Qed.

Lemma quiet_notin (d : ascii) url :
  d ∈ py ":?#;" -> Forall quiet url -> d ∉ url.
Proof.
  intros Hd Hall Hin. rewrite Forall_forall in Hall.
  destruct (Hall d Hin) as [_ Hn]. done.
Qed.

(** The parser splits nothing off a quiet text that does not start with
    two separators. *)
Lemma urlsplit_quiet url :
  Forall quiet url -> take 2 url <> py "//" ->
  urlsplit chk url [] = Ok (mkSplit [] [] url [] []).
Proof.
  intros Hq Hnl. unfold urlsplit. cbv zeta.
  rewrite (lstrip_quiet url Hq), (filter_safe url Hq).
  assert (find ":" url = None) as ->.
  { apply find_None, quiet_notin; [|done]. by apply (bool_decide_eq_true_1 (_ ∈ _)). }
  rewrite bool_decide_eq_false_2 by done. simpl.
  unfold partition.
  assert (find "#" url = None) as ->.
  { apply find_None, quiet_notin; [|done]. by apply (bool_decide_eq_true_1 (_ ∈ _)). }
  simpl.
  assert (find "?" url = None) as ->.
  { apply find_None, quiet_notin; [|done]. by apply (bool_decide_eq_true_1 (_ ∈ _)). }
  reflexivity.
Qed.

Lemma urlparse_quiet url :
  Forall quiet url -> take 2 url <> py "//" ->
  urlparse chk url [] = Ok (mkParse [] [] url [] [] []).
Proof.
  intros Hq Hnl. unfold urlparse. rewrite urlsplit_quiet by done. simpl.
  unfold contains. rewrite (bool_decide_eq_false_2 (";"%char ∈ url)).
  - rewrite ?andb_false_r. reflexivity.
  - apply quiet_notin; [|done]. by apply (bool_decide_eq_true_1 (_ ∈ _)).
Qed.
End QuietUrls.

Section JoinSegments.
Import PyStr Urllib.
Variable chk : str -> bool.

Lemma plain_inv seg :
  plain seg ->
  seg <> [] /\ Forall (fun c => quiet c /\ c <> slash) seg
  /\ seg <> py "." /\ seg <> py "..".
Proof.
  unfold plain, plain_segment.
  intros [[H1 H2]%andb_true_iff H3]%andb_true_iff.
  apply negb_true_iff, bool_decide_eq_false in H3.
  split; [by destruct seg|]. split.
  - apply Forall_forall. intros c Hc.
    apply plain_char_quiet. rewrite forallb_forall in H2.
    apply H2. by apply list_elem_of_In.
  - split; intros ->; apply H3; [left|right; left].
Qed.

Lemma plain_quiet seg : plain seg -> Forall quiet seg.
Proof.
  intros (_ & H & _)%plain_inv. eapply Forall_impl; [exact H|]. by intros ? [].
Qed.

Lemma plain_no_slash seg : plain seg -> slash ∉ seg.
Proof.
  intros (_ & H & _)%plain_inv Hin. rewrite Forall_forall in H.
  by destruct (H _ Hin).
Qed.

Lemma plain_head seg :
  plain seg -> exists x t, seg = x :: t /\ x <> slash.
Proof.
  intros (Hne & H & _)%plain_inv. destruct seg as [|x t]; [done|].
  exists x, t. split; [done|]. by apply Forall_cons in H as [[] _].
Qed.

Lemma filter_middle_cons_snoc x mid y :
  filter_middle (x :: mid ++ [y])
  = x :: filter (fun s => nonempty s) mid ++ [y].
Proof.
  unfold filter_middle. simpl length. rewrite length_app. simpl length.
  replace (S (length mid + 1) - 1) with (S (length mid)) by lia.
  replace (max 1 (S (length mid))) with (S (length mid)) by lia.
  simpl. rewrite take_app_length, drop_app_length. done.
Qed.

Lemma filter_nonempty l :
  Forall plain l -> filter (fun s => nonempty s) l = l.
Proof.
  induction 1 as [|seg l Hseg Hall IH]; [done|].
  rewrite filter_cons_True; [by rewrite IH|].
  apply plain_inv in Hseg as [Hne _]. by destruct seg.
Qed.

Lemma resolve_no_dots segs : forall acc,
  Forall (fun s => s <> py "." /\ s <> py "..") segs ->
  fold_left resolve_step segs acc = acc ++ segs.
Proof.
  induction segs as [|seg segs IH]; intros acc Hall; simpl.
  - by rewrite app_nil_r.
  - apply Forall_cons in Hall as [[H1 H2] Hall].
    unfold resolve_step at 2.
    rewrite decide_False, decide_False by done.
    rewrite IH by done. by rewrite <- app_assoc.
Qed.

Lemma collapse_cons_ne x t : x <> slash -> collapse (x :: t) = x :: collapse t.
Proof. intros Hx. destruct t; simpl; [done|]. by rewrite decide_False. Qed.

Lemma collapse_slash_ne x t :
  x <> slash -> collapse (slash :: x :: t) = slash :: collapse (x :: t).
Proof.
  intros Hx. simpl. destruct (decide (x = slash)); done.
Qed.

(** [re.sub] finds nothing to collapse between plain segments. *)
Lemma collapse_plain_segments segs l :
  Forall plain segs -> (l = [] \/ plain l) ->
  collapse (join slash (segs ++ [l])) = join slash (segs ++ [l]).
Proof.
  intros Hall Hl. induction Hall as [|seg segs Hseg Hall IH].
  - simpl. destruct Hl as [->|Hl]; [done|].
    apply plain_inv in Hl as (_ & Hl & _).
    induction Hl as [|x l [_ Hx] Hl IH]; [done|].
    rewrite collapse_cons_ne by done. by rewrite IH.
  - rewrite <- app_comm_cons, join_cons by (by destruct segs).
    assert (match join slash (segs ++ [l]) with
            | [] => True | c :: _ => c <> slash end) as Hhead.
    { destruct Hall as [|seg' segs' Hseg' _].
      - simpl. destruct Hl as [->|Hl]; [done|].
        by destruct (plain_head _ Hl) as (x & t & -> & Hx).
      - destruct (plain_head _ Hseg') as (x & t & -> & Hx).
        rewrite <- app_comm_cons.
        pose proof (head_join slash x t (segs' ++ [l])) as Hh.
        by destruct (join slash ((x :: t) :: segs' ++ [l])); simplify_eq/=. }
    revert IH Hhead. generalize (join slash (segs ++ [l])). intros rest IH Hhead.
    apply plain_inv in Hseg as (Hne & Hseg & _).
    clear Hne. induction Hseg as [|x seg' [_ Hx] Hseg IH'].
    + simpl app. destruct rest as [|c rest]; [done|].
      rewrite collapse_slash_ne by done. by rewrite IH.
    + rewrite <- app_comm_cons, collapse_cons_ne by done. by rewrite IH'.
Qed.
End JoinSegments.

(** Settle one [bool_decide] of the goal, whatever instance decides it. *)
Ltac decide_true P :=
  match goal with
  | |- context [@bool_decide P ?d] =>
      replace (@bool_decide P d) with true by (vm_compute; reflexivity)
  end.

Ltac decide_false P :=
  match goal with
  | |- context [@bool_decide P ?d] =>
      let H := fresh in
      assert (~ P) as H; [|rewrite (@bool_decide_eq_false_2 P d H); clear H]
  end.

Section SafeJoinPlain.
Import PyStr Urllib.
Variable chk : str -> bool.

Lemma join_head_ne segs l :
  Forall plain segs -> (l = [] \/ plain l) ->
  match join slash (segs ++ [l]) with
  | [] => True
  | c :: _ => c <> slash
  end.
Proof.
  intros Hall Hl. destruct Hall as [|seg segs Hseg _].
  - simpl. destruct Hl as [->|Hl]; [done|].
    by destruct (plain_head _ Hl) as (x & t & -> & Hx).
  - destruct (plain_head _ Hseg) as (x & t & -> & Hx).
    rewrite <- app_comm_cons.
    pose proof (head_join slash x t (segs ++ [l])) as Hh.
    by destruct (join slash ((x :: t) :: segs ++ [l])); simplify_eq/=.
Qed.

Lemma plain_mild segs : Forall plain segs -> Forall mild segs.
Proof. intros H. eapply Forall_impl; [exact H|]. by right. Qed.

Lemma mild_quiet segs : Forall mild segs -> Forall quiet (join slash segs).
Proof.
  intros H. apply Forall_join; [apply quiet_slash|].
  eapply Forall_impl; [exact H|].
  intros seg [->|Hp]; [constructor|by apply plain_quiet].
Qed.

Lemma mild_no_slash segs :
  Forall mild segs -> Forall (fun seg => slash ∉ seg) segs.
Proof.
  intros H. eapply Forall_impl; [exact H|].
  intros seg [->|Hp]; [apply not_elem_of_nil|by apply plain_no_slash].
Qed.

Lemma mild_around rs : Forall plain rs -> Forall mild ([] :: rs ++ [[]]).
Proof.
  intros H. constructor; [by left|]. apply Forall_app. split.
  - by apply plain_mild.
  - constructor; [by left|constructor].
Qed.

(** The normalised form of a plain root, seen as its segments between an
    empty first and an empty last one. *)
Lemma plain_root_segments base :
  plain_root base = true ->
  exists rs, Forall plain rs
    /\ normalize_base base = join slash ([] :: rs ++ [[]]).
Proof.
  unfold plain_root, normalize_base.
  set (r := rstrip (is_char slash) (lstrip (is_char slash) base)).
  intros H. destruct r as [|x r'] eqn:Hr.
  - exists []. split; [constructor|]. reflexivity.
  - exists (split slash (x :: r')). split.
    + apply Forall_forall. intros seg Hseg.
      rewrite forallb_forall in H. apply H. by apply list_elem_of_In.
    + rewrite decide_False by (by destruct r').
      rewrite join_cons by (pose proof (split_nonnil slash (x :: r'));
                            by destruct (split slash (x :: r'))).
      rewrite join_snoc by apply split_nonnil.
      by rewrite join_split.
Qed.

End SafeJoinPlain.

(** ** Runs of separators *)

Section Doubled.
Import PyStr.

Lemma is_slash_true c : is_char slash c = true <-> c = slash.
Proof. unfold is_char. apply bool_decide_eq_true. Qed.

Lemma collapse_head_doubled s :
  head (collapse s) = head s /\ doubled (collapse s) = false.
Proof.
  induction s as [|c t [IHh IHd]]; [done|].
  destruct t as [|c' t']; [done|].
  change (collapse (c :: c' :: t'))
    with (if decide (c = slash)
          then if decide (c' = slash) then collapse (c' :: t')
               else c :: collapse (c' :: t')
          else c :: collapse (c' :: t')).
  assert (Hcons : ~ (c = slash /\ c' = slash) ->
            head (c :: collapse (c' :: t')) = head (c :: c' :: t')
            /\ doubled (c :: collapse (c' :: t')) = false).
  { intros Hn. split; [done|].
    destruct (collapse (c' :: t')) as [|x r] eqn:Hc; [done|].
    simpl in IHh. injection IHh as ->.
    change (doubled (c :: c' :: r))
      with (is_char slash c && is_char slash c' || doubled (c' :: r)).
    rewrite IHd, orb_false_r. apply andb_false_iff.
    destruct (is_char slash c) eqn:H1; [|by left]. right.
    destruct (is_char slash c') eqn:H2; [|done].
    apply is_slash_true in H1, H2. by destruct Hn. }
  destruct (decide (c = slash)) as [->|Hc].
  - destruct (decide (c' = slash)) as [->|Hc'].
    + split; [|done]. by rewrite IHh.
    + apply Hcons. by intros [_ ?].
  - apply Hcons. by intros [? _].
Qed.

Lemma collapse_id s : doubled s = false -> collapse s = s.
Proof.
  induction s as [|c t IH]; [done|].
  destruct t as [|c' t']; [done|].
  change (doubled (c :: c' :: t'))
    with (is_char slash c && is_char slash c' || doubled (c' :: t')).
  intros [H1 H2]%orb_false_iff.
  change (collapse (c :: c' :: t'))
    with (if decide (c = slash)
          then if decide (c' = slash) then collapse (c' :: t')
               else c :: collapse (c' :: t')
          else c :: collapse (c' :: t')).
  rewrite (IH H2).
  destruct (decide (c = slash)) as [->|Hc]; [|done].
  destruct (decide (c' = slash)) as [->|Hc']; [|done].
  done.
Qed.

Lemma doubled_prefix p s : doubled p = true -> p `prefix_of` s -> doubled s = true.
Proof.
  intros Hp [k ->]. induction p as [|c t IH]; [done|].
  destruct t as [|c' t']; [done|].
  change (doubled (c :: c' :: t'))
    with (is_char slash c && is_char slash c' || doubled (c' :: t')) in Hp.
  change (doubled ((c :: c' :: t') ++ k))
    with (is_char slash c && is_char slash c' || doubled ((c' :: t') ++ k)).
  apply orb_true_iff in Hp as [Hp|Hp]; [by rewrite Hp|].
  by rewrite (IH Hp), orb_true_r.
Qed.

Lemma normalize_base_nonempty base : Urllib.nonempty (normalize_base base) = true.
Proof.
  unfold normalize_base.
  by destruct (decide (_ = py "//")).
Qed.

Lemma lstrip_all p s : Forall (fun c => p c = true) s -> lstrip p s = [].
Proof. induction 1 as [|c s Hc _ IH]; [done|]. simpl. by rewrite Hc. Qed.
End Doubled.

(** ** Clean roots and clean names *)

Section Collapse.
Import PyStr.

Lemma collapse_unfold c c' t :
  collapse (c :: c' :: t)
  = if decide (c = slash)
    then if decide (c' = slash) then collapse (c' :: t)
         else c :: collapse (c' :: t)
    else c :: collapse (c' :: t).
Proof. reflexivity. Qed.

Lemma doubled_unfold c c' t :
  doubled (c :: c' :: t)
  = is_char slash c && is_char slash c' || doubled (c' :: t).
Proof. reflexivity. Qed.

(** Nothing collapses across the end of a text without a run of
    separators, unless a run starts there. *)
Lemma collapse_app_clean a b :
  doubled a = false ->
  (last a = Some slash -> head b <> Some slash) ->
  collapse (a ++ b) = a ++ collapse b.
Proof.
  induction a as [|c a IH]; [done|].
  destruct a as [|c' a'].
  - intros _ Hb. simpl app.
    destruct (decide (c = slash)) as [->|Hc]; [|by apply collapse_cons_ne].
    destruct b as [|x b]; [done|].
    apply collapse_slash_ne. intros ->. by apply Hb.
  - rewrite doubled_unfold. intros [H1 H2]%orb_false_iff Hb.
    rewrite <- !app_comm_cons, collapse_unfold.
    rewrite !app_comm_cons, (IH H2 Hb).
    destruct (decide (c = slash)) as [->|Hc]; [|done].
    destruct (decide (c' = slash)) as [->|Hc']; [|done].
    done.
Qed.

(** Collapsing a first part ahead of time changes nothing. *)
Lemma collapse_collapse_app a b :
  collapse (collapse a ++ b) = collapse (a ++ b).
Proof.
  induction a as [|c a IH]; [done|].
  destruct a as [|c' a']; [done|].
  rewrite <- !app_comm_cons, !collapse_unfold.
  assert (Hkeep : ~ (c = slash /\ c' = slash) ->
            collapse ((c :: collapse (c' :: a')) ++ b)
            = c :: collapse (c' :: a' ++ b)).
  { intros Hn.
    pose proof (proj1 (collapse_head_doubled (c' :: a'))) as Hh.
    destruct (collapse (c' :: a')) as [|x z] eqn:Hz; [done|].
    simpl in Hh. injection Hh as ->.
    rewrite <- !app_comm_cons, collapse_unfold.
    rewrite !app_comm_cons, IH.
    destruct (decide (c = slash)) as [->|Hc]; [|done].
    destruct (decide (c' = slash)) as [->|Hc']; [|done].
    by destruct Hn. }
  destruct (decide (c = slash)) as [->|Hc].
  - destruct (decide (c' = slash)) as [->|Hc'].
    + exact IH.
    + apply Hkeep. by intros [_ ?].
  - apply Hkeep. by intros [? _].
Qed.
End Collapse.

Section Squeeze.
Import PyStr Urllib.

Lemma squeeze_cons_nonempty x l :
  nonempty x = true -> squeeze (x :: l) = x :: squeeze l.
Proof.
  intros Hx. destruct l as [|y l]; simpl.
  - reflexivity.
  - rewrite filter_cons_True by (by rewrite Hx). reflexivity.
Qed.

Lemma squeeze_cons_empty l : l <> [] -> squeeze ([] :: l) = squeeze l.
Proof. destruct l as [|y l]; [done|]. intros _. reflexivity. Qed.

Lemma squeeze_nonnil l : l <> [] -> squeeze l <> [].
Proof. destruct l; [done|]. intros _. unfold squeeze. by destruct (filter _ _). Qed.

Lemma squeeze_app rs l :
  Forall (fun seg => nonempty seg = true) rs -> squeeze (rs ++ l) = rs ++ squeeze l.
Proof.
  induction 1 as [|seg rs Hseg _ IH]; [done|].
  by rewrite <- app_comm_cons, squeeze_cons_nonempty, IH.
Qed.

Lemma squeeze_last l : List.last (squeeze l) [] = List.last l [].
Proof. destruct l as [|x l]; [done|]. unfold squeeze. by rewrite last_last. Qed.

Lemma squeeze_Forall (P : str -> Prop) l : Forall P l -> Forall P (squeeze l).
Proof.
  intros H. destruct l as [|x l]; [done|].
  assert (x :: l <> []) as Hne by done.
  rewrite (app_removelast_last [] Hne) in H.
  apply Forall_app in H as [H1 H2].
  unfold squeeze. apply Forall_app. split; [|done].
  apply Forall_forall. intros y [_ Hy]%list_elem_of_filter.
  rewrite Forall_forall in H1. by apply H1.
Qed.

Lemma filter_middle_cons x l : filter_middle (x :: l) = x :: squeeze l.
Proof.
  destruct l as [|y l]; [done|].
  assert (y :: l <> []) as Hne by done.
  rewrite (app_removelast_last [] Hne) at 1.
  by rewrite filter_middle_cons_snoc.
Qed.

Lemma join_cons_head (c x : ascii) seg l :
  join c ((x :: seg) :: l) = x :: join c (seg :: l).
Proof. by destruct l. Qed.

(** [re.sub] on a text is the filter of [urljoin] on its segments. *)
Lemma collapse_split s :
  collapse s = join slash (filter_middle (split slash s)).
Proof.
  induction s as [|c t IH]; [done|].
  pose proof (split_nonnil slash t) as Hne.
  destruct (decide (c = slash)) as [->|Hc].
  - change (split slash (slash :: t)) with ([] :: split slash t).
    rewrite filter_middle_cons.
    destruct t as [|x t']; [done|].
    destruct (decide (x = slash)) as [->|Hx].
    + rewrite collapse_unfold, !decide_True by done. rewrite IH.
      change (split slash (slash :: t')) with ([] :: split slash t').
      rewrite filter_middle_cons.
      by rewrite squeeze_cons_empty by apply split_nonnil.
    + rewrite collapse_slash_ne by done. rewrite IH.
      destruct (split slash (x :: t')) as [|x1 l1] eqn:Hs; [done|].
      assert (nonempty x1 = true) as Hx1.
      { simpl in Hs. rewrite decide_False in Hs by done.
        destruct (split slash t'); by simplify_eq. }
      rewrite filter_middle_cons, squeeze_cons_nonempty by done.
      rewrite (join_cons slash [] (x1 :: squeeze l1)) by done. done.
  - rewrite collapse_cons_ne by done. rewrite IH.
    simpl split. rewrite decide_False by done.
    destruct (split slash t) as [|x1 l1]; [done|].
    rewrite !filter_middle_cons. by rewrite join_cons_head.
Qed.

Lemma collapse_squeeze p :
  head p <> Some slash -> collapse p = join slash (squeeze (split slash p)).
Proof.
  intros Hh. rewrite collapse_split.
  destruct p as [|c t]; [done|].
  simpl split. rewrite decide_False by (intros ->; by apply Hh).
  pose proof (split_nonnil slash t) as Hne.
  destruct (split slash t) as [|x1 l1]; [done|].
  by rewrite filter_middle_cons, squeeze_cons_nonempty.
Qed.

Lemma split_no_sep (c : ascii) s : Forall (fun seg => c ∉ seg) (split c s).
Proof.
  induction s as [|x s IH]; simpl.
  - repeat constructor. apply not_elem_of_nil.
  - destruct (decide (x = c)) as [->|Hx].
    + constructor; [apply not_elem_of_nil|done].
    + destruct (split c s) as [|seg segs].
      { constructor; [|done].
        rewrite not_elem_of_cons. split; [congruence|apply not_elem_of_nil]. }
      apply Forall_cons in IH as [H1 H2]. constructor; [|done].
      rewrite not_elem_of_cons. split; [congruence|done].
Qed.
End Squeeze.

Section RelativeText.
Import PyStr Urllib.

Lemma root_char_inv c :
  root_char c = true ->
  unsafe_url_byte c = false /\ c <> "?"%char /\ c <> "#"%char.
Proof.
  unfold root_char. intros [H1 H2]%andb_true_iff.
  apply negb_true_iff in H1. apply negb_true_iff, bool_decide_eq_false in H2.
  split; [done|]. split; intros ->; apply H2; [left|right; left].
Qed.

Lemma filter_root url :
  Forall (fun c => root_char c = true) url ->
  filter (fun c => negb (unsafe_url_byte c)) url = url.
Proof.
  induction 1 as [|x url Hx _ IH]; [done|].
  apply root_char_inv in Hx as [Hx _].
  rewrite filter_cons_True; [by rewrite IH|]. by rewrite Hx.
Qed.

Lemma root_notin (d : ascii) url :
  d ∈ py "?#" -> Forall (fun c => root_char c = true) url -> d ∉ url.
Proof.
  intros Hd Hall Hin. rewrite Forall_forall in Hall.
  specialize (Hall d Hin). unfold root_char in Hall.
  rewrite (bool_decide_eq_true_2 _ Hd) in Hall.
  by rewrite andb_false_r in Hall.
Qed.

Lemma _splitparams_dir s : _splitparams (s ++ [slash]) = (s ++ [slash], []).
Proof.
  unfold _splitparams, contains.
  rewrite bool_decide_eq_true_2 by (apply elem_of_app; right; left).
  unfold rfind. rewrite reverse_snoc. simpl find. simpl default.
  unfold find_from. rewrite length_app. simpl length.
  replace (length s + 1 - 1 - 0) with (length s) by lia.
  by rewrite drop_app_length.
Qed.

Lemma urlunparse_relative p prm q f :
  urlunparse (mkParse [] [] p prm q f)
  = p ++ urlunparse (mkParse [] [] [] prm q f).
Proof.
  unfold urlunparse, urlunsplit. simpl.
  destruct prm, q, f; simpl; rewrite ?app_nil_r, <- ?app_assoc; reflexivity.
Qed.

Lemma urlunparse_tail_head prm q f :
  head (urlunparse (mkParse [] [] [] prm q f)) <> Some slash.
Proof. unfold urlunparse, urlunsplit. by destruct prm, q, f. Qed.

Lemma dot_segment_false seg :
  dot_segment seg = false <-> seg <> py "." /\ seg <> py "..".
Proof.
  unfold dot_segment. rewrite bool_decide_eq_false.
  rewrite !elem_of_cons, elem_of_nil. tauto.
Qed.

Lemma root_app_segments rs l :
  l <> [] ->
  join slash ([] :: rs ++ l) = join slash ([] :: rs ++ [[]]) ++ join slash l.
Proof.
  intros Hl. rewrite !app_comm_cons.
  rewrite (join_app slash ([] :: rs) l) by done.
  rewrite (join_app slash ([] :: rs) [[]]) by done.
  simpl join at 3. by rewrite <- app_assoc.
Qed.

End RelativeText.

Section Relative.
Import PyStr Urllib.
Variable chk : str -> bool.

(** The parser reads a text of root characters that starts with one
    separator and ends with a separator as one path. *)
Lemma urlsplit_root url :
  Forall (fun c => root_char c = true) url ->
  head url = Some slash ->
  take 2 url <> py "//" ->
  urlsplit chk url [] = Ok (mkSplit [] [] url [] []).
Proof.
  intros Hq Hh Hnl. unfold urlsplit. cbv zeta.
  rewrite (lstrip_id c0_control_or_space url)
    by (destruct url; by simplify_eq/=).
  rewrite (filter_root _ Hq).
  change (filter (fun c => negb (unsafe_url_byte c))
            (rstrip c0_control_or_space (lstrip c0_control_or_space [])))
    with (@nil ascii).
  assert (match find ":" url, url with
          | Some (S i), c0 :: _ =>
              if is_alpha c0 && forallb scheme_char (take (S i) url)
              then (lower <$> take (S i) url, drop (S (S i)) url)
              else ([], url)
          | _, _ => ([], url)
          end = ([], url)) as ->.
  { destruct url as [|c t]; [done|]. injection Hh as ->.
    by destruct (find ":" (slash :: t)) as [[|i]|]. }
  rewrite bool_decide_eq_false_2 by done. simpl.
  unfold partition.
  assert (find "#" url = None) as ->.
  { apply find_None, root_notin; [|done]. by apply (bool_decide_eq_true_1 (_ ∈ _)). }
  simpl.
  assert (find "?" url = None) as ->.
  { apply find_None, root_notin; [|done]. by apply (bool_decide_eq_true_1 (_ ∈ _)). }
  reflexivity.
Qed.

Lemma urlparse_root s :
  Forall (fun c => root_char c = true) (s ++ [slash]) ->
  head (s ++ [slash]) = Some slash ->
  take 2 (s ++ [slash]) <> py "//" ->
  urlparse chk (s ++ [slash]) []
  = Ok (mkParse [] [] (s ++ [slash]) [] [] []).
Proof.
  intros Hq Hh Hnl. unfold urlparse.
  rewrite urlsplit_root by done.
  cbn [rbind s_scheme s_netloc s_path s_query s_fragment].
  destruct (bool_decide ([] ∈ uses_params) && contains ";" (s ++ [slash]));
    [by rewrite _splitparams_dir|done].
Qed.

(** [urljoin] of a relative reference under a root that is one path with
    whole segments: the path of the reference, its runs of separators
    removed, goes after the root, and what follows the path is kept. *)
Lemma urljoin_relative base n rs p prm q f :
  urlparse chk base [] = Ok (mkParse [] [] base [] [] []) ->
  split slash base = [] :: rs ++ [[]] ->
  Forall (fun seg => nonempty seg = true /\ dot_segment seg = false) rs ->
  urlparse chk n [] = Ok (mkParse [] [] p prm q f) ->
  nonempty n = true ->
  head p <> Some slash ->
  Forall (fun seg => dot_segment seg = false) (split slash p) ->
  urljoin chk base n
  = Ok (base ++ collapse p ++ urlunparse (mkParse [] [] [] prm q f)).
Proof.
  intros Hpb Hsb Hrs Hpu Hnu Hp Hdots.
  assert (nonempty base = true) as Hnb.
  { destruct base; [|done]. simpl in Hsb. by destruct rs. }
  assert (base = join slash ([] :: rs ++ [[]])) as Hb
    by (by rewrite <- Hsb, join_split).
  unfold urljoin. rewrite Hnb, Hnu, Hpb. cbn [negb rbind scheme].
  rewrite Hpu. cbn [rbind scheme netloc path params query fragment].
  decide_true (@nil ascii = []).
  decide_true ([] ∈ uses_relative).
  decide_true ([] ∈ uses_netloc).
  cbn [negb orb andb nonempty].
  destruct (negb (nonempty p) && negb (nonempty prm)) eqn:Hempty.
  - apply andb_true_iff in Hempty as [H1 H2].
    destruct p; [|done]. destruct prm; [|done].
    rewrite urlunparse_relative. simpl collapse. simpl app at 2.
    by destruct q.
  - rewrite Hsb.
    replace (List.last ([] :: rs ++ [[]]) []) with (@nil ascii)
      by (by rewrite app_comm_cons, last_last).
    cbn [nonempty].
    decide_false (take 1 p = py "/").
    { destruct p as [|x t]; [done|]. simpl. intros [= ->]. by apply Hp. }
    pose proof (split_nonnil slash p) as Hne.
    rewrite <- app_comm_cons, filter_middle_cons.
    rewrite <- app_assoc, squeeze_app.
    2:{ eapply Forall_impl; [exact Hrs|]. by intros ? []. }
    change ([[]] ++ split slash p) with ([] :: split slash p).
    rewrite squeeze_cons_empty by done.
    unfold resolve_segments. rewrite resolve_no_dots.
    2:{ constructor; [done|]. apply Forall_app. split.
        - eapply Forall_impl; [exact Hrs|].
          intros seg [_ H]. by apply dot_segment_false.
        - apply squeeze_Forall. eapply Forall_impl; [exact Hdots|].
          intros seg H. by apply dot_segment_false. }
    rewrite app_nil_l.
    pose proof (squeeze_nonnil _ Hne) as Hsq.
    replace (List.last ([] :: rs ++ squeeze (split slash p)) [])
      with (List.last (split slash p) []).
    2:{ rewrite <- squeeze_last.
        rewrite (app_removelast_last [] Hsq) at 2.
        by rewrite app_comm_cons, app_assoc, last_last. }
    decide_false (List.last (split slash p) [] ∈ [py "."; py ".."]).
    { rewrite Forall_forall in Hdots.
      assert (List.last (split slash p) [] ∈ split slash p) as Hin.
      { rewrite (app_removelast_last [] Hne) at 2.
        apply elem_of_app. right. left. }
      apply Hdots in Hin. by apply (bool_decide_eq_false_1 (_ ∈ _)). }
    rewrite root_app_segments by done.
    rewrite <- Hb, <- collapse_squeeze by done.
    replace (nonempty (base ++ collapse p)) with true
      by (by destruct base).
    by rewrite urlunparse_relative, <- app_assoc.
Qed.
End Relative.

Section CleanJoin.
Import PyStr Urllib.
Variable chk : str -> bool.

(** The normalised form of a clean root, seen as its segments between an
    empty first and an empty last one. *)
Lemma clean_root_segments base :
  clean_root base = true ->
  exists rs,
    Forall (fun seg => nonempty seg = true /\ dot_segment seg = false) rs
    /\ Forall (fun seg => slash ∉ seg) rs
    /\ normalize_base base = join slash ([] :: rs ++ [[]])
    /\ Forall (fun c => root_char c = true) (normalize_base base).
Proof.
  unfold clean_root, normalize_base.
  set (l := lstrip (is_char slash) base).
  set (r := rstrip (is_char slash) l).
  intros [Hchars Hsegs]%andb_true_iff.
  assert (Forall (fun c => root_char c = true) r) as Hr.
  { destruct (lstrip_suffix (is_char slash) base) as (k & Hk & _).
    destruct (rstrip_prefix (is_char slash) l) as [k' Hk'].
    fold l in Hk. fold r in Hk'.
    assert (Forall (fun c => root_char c = true) base) as Hb.
    { apply Forall_forall. intros c Hc. rewrite forallb_forall in Hchars.
      apply Hchars. by apply list_elem_of_In. }
    rewrite Hk, Hk' in Hb.
    by apply Forall_app in Hb as [_ [Hb _]%Forall_app]. }
  destruct r as [|x r'] eqn:Hreq.
  - exists []. repeat split; [constructor|constructor|].
    by repeat constructor.
  - exists (split slash (x :: r')). split; [|split; [|split]].
    + apply Forall_forall. intros seg Hseg.
      rewrite forallb_forall in Hsegs.
      apply list_elem_of_In, Hsegs in Hseg.
      apply andb_true_iff in Hseg as [H1 H2].
      by apply negb_true_iff in H2.
    + apply split_no_sep.
    + rewrite decide_False by (by destruct r').
      rewrite join_cons by (pose proof (split_nonnil slash (x :: r'));
                            by destruct (split slash (x :: r'))).
      rewrite join_snoc by apply split_nonnil.
      by rewrite join_split.
    + rewrite decide_False by (by destruct r').
      constructor; [done|]. apply Forall_app. split; [done|].
      by repeat constructor.
Qed.

(** Such a text parses to a bare path, splits into these segments and has
    no two separators in a row. *)
Lemma clean_root_parse base rs :
  Forall (fun seg => nonempty seg = true /\ dot_segment seg = false) rs ->
  Forall (fun seg => slash ∉ seg) rs ->
  base = join slash ([] :: rs ++ [[]]) ->
  Forall (fun c => root_char c = true) base ->
  urlparse chk base [] = Ok (mkParse [] [] base [] [] [])
  /\ split slash base = [] :: rs ++ [[]]
  /\ doubled base = false.
Proof.
  intros Hrs Hns Hb Hchars.
  assert (split slash base = [] :: rs ++ [[]]) as Hsplit.
  { rewrite Hb. apply split_join; [done|].
    constructor; [apply not_elem_of_nil|].
    apply Forall_app. split; [done|].
    constructor; [apply not_elem_of_nil|constructor]. }
  assert (filter (fun s => nonempty s) rs = rs) as Hf.
  { clear -Hrs. induction Hrs as [|seg rs [Hseg _] _ IH]; [done|].
    rewrite filter_cons_True; [by rewrite IH|]. by rewrite Hseg. }
  split; [|split; [done|]].
  - rewrite Hb in Hchars |- *.
    rewrite app_comm_cons, join_snoc in Hchars |- * by done.
    apply urlparse_root; [done| |].
    + by destruct rs.
    + rewrite <- join_snoc, <- app_comm_cons by done.
      rewrite join_cons by (by destruct rs).
      destruct Hrs as [|seg rs [Hseg _] _]; [done|].
      apply Forall_cons in Hns as [Hns _].
      destruct seg as [|x t]; [done|].
      rewrite <- app_comm_cons.
      pose proof (head_join slash x t (rs ++ [[]])) as Hh.
      destruct (join slash ((x :: t) :: rs ++ [[]])) as [|y z];
        simplify_eq/=.
      intros [= ->]. apply Hns. left.
  - rewrite <- (proj2 (collapse_head_doubled base)). f_equal.
    rewrite collapse_split, Hsplit, filter_middle_cons_snoc, Hf.
    by rewrite <- Hsplit, join_split.
Qed.

(** What the parser found in a clean name. *)
Lemma clean_name_inv path :
  clean_name chk path = true ->
  exists p prm q f,
    urlparse chk (normalize_path path) [] = Ok (mkParse [] [] p prm q f)
    /\ normalize_path path = p ++ urlunparse (mkParse [] [] [] prm q f)
    /\ head p <> Some slash
    /\ Forall (fun seg => dot_segment seg = false) (split slash p).
Proof.
  unfold clean_name.
  destruct (urlparse chk (normalize_path path) [])
    as [[sch nl p prm q f]|] eqn:Hu; [|done].
  intros [H1 H2]%andb_true_iff.
  apply bool_decide_eq_true in H1 as (Hs & Hn & Hun). simpl in Hs, Hn, H2.
  subst sch nl. rewrite urlunparse_relative in Hun.
  exists p, prm, q, f. split; [done|]. split; [done|]. split.
  - pose proof (lstrip_head (is_char slash) path) as Hh.
    fold (normalize_path path) in Hh. rewrite <- Hun in Hh.
    destruct p as [|x t]; [done|]. simpl in Hh. intros [= ->].
    unfold is_char in Hh. by rewrite bool_decide_eq_true_2 in Hh.
  - apply Forall_forall. intros seg Hseg.
    rewrite forallb_forall in H2. apply list_elem_of_In, H2 in Hseg.
    by apply negb_true_iff in Hseg.
Qed.
End CleanJoin.

(** C4, as stated, fails: [a//b] has no [..] segment, and the result
    [/a/b] does not end with it. *)
Lemma safe_join_collapses_inner_separators :
  (py ".." ∉ PyStr.split PyStr.slash (py "a//b"))
  /\ safe_join no_check (py "") (py "a//b") = Ok (py "/a/b")
  /\ ~ (normalize_path (py "a//b") `suffix_of` py "/a/b").
Proof.
  split; [by apply (bool_decide_eq_false_1 (_ ∈ _))|].
  split; [reflexivity|].
  by apply (bool_decide_eq_false_1 (_ `suffix_of` _)).
Qed.

(** C4, amended: for a clean root (no tab, carriage return, line feed, [?]
    or [#]; between the separators stripped at both ends, no empty segment
    and no [.] or [..]) and a clean name (read by the parser, once its
    leading separators are stripped, as a reference without scheme or host
    and given back unchanged; no [.] or [..] segment in its path),
    [safe_join] succeeds and returns the normalised root followed by the
    name without its leading separators, every run of separators in it
    collapsed to one. The result starts with the normalised root and ends
    with the collapsed name, which is the name itself when it has no run of
    separators. *)
Theorem safe_join_clean (chk : str -> bool) (base path : str) :
  clean_root base = true ->
  clean_name chk path = true ->
  safe_join chk base path
  = Ok (normalize_base base ++ PyStr.collapse (normalize_path path))
  /\ normalize_base base
     `prefix_of` normalize_base base ++ PyStr.collapse (normalize_path path)
  /\ PyStr.collapse (normalize_path path)
     `suffix_of` normalize_base base ++ PyStr.collapse (normalize_path path)
  /\ (doubled (normalize_path path) = false ->
      PyStr.collapse (normalize_path path) = normalize_path path).
Proof.
  intros Hroot Hname.
  split; [|split; [by apply prefix_app_r|split;
                   [by apply suffix_app_r|apply collapse_id]]].
  destruct (clean_root_segments base Hroot) as (rs & Hrs & Hns & Hb & Hchars).
  destruct (clean_root_parse chk _ rs Hrs Hns Hb Hchars)
    as (Hpb & Hsb & Hdb).
  destruct (clean_name_inv chk path Hname)
    as (p & prm & q & f & Hpu & Hn & Hp & Hdots).
  assert (Hsj : forall u,
            Urllib.urljoin chk (normalize_base base) (normalize_path path)
            = Ok u ->
            PyStr.collapse u
            = normalize_base base ++ PyStr.collapse (normalize_path path) ->
            safe_join chk base path
            = Ok (normalize_base base
                  ++ PyStr.collapse (normalize_path path))).
  { intros u Hu Hc. unfold safe_join. rewrite Hu. simpl. rewrite Hc.
    by rewrite (proj2 (startswith_true _ _)) by (by apply prefix_app_r). }
  destruct (Urllib.nonempty (normalize_path path)) eqn:Hne.
  - eapply Hsj.
    + by apply (urljoin_relative chk _ _ rs p prm q f).
    + rewrite collapse_app_clean; [|done|].
      * by rewrite collapse_collapse_app, <- Hn.
      * intros _.
        pose proof (proj1 (collapse_head_doubled p)) as Hh.
        destruct (PyStr.collapse p) as [|x z].
        -- apply urlunparse_tail_head.
        -- simpl in *. by rewrite Hh.
  - destruct (normalize_path path) as [|x t] eqn:Hnp; [|done].
    apply (Hsj (normalize_base base)).
    + unfold Urllib.urljoin. by rewrite normalize_base_nonempty.
    + by rewrite app_nil_r, collapse_id.
Qed.

Lemma safe_join_clean_witness :
  let root := py "media files" in
  let name := py "/a//b c:d;v=1?q#top" in
  safe_join no_check root name
  = Ok (normalize_base root ++ PyStr.collapse (normalize_path name))
  /\ normalize_base root
     `prefix_of` normalize_base root ++ PyStr.collapse (normalize_path name)
  /\ PyStr.collapse (normalize_path name)
     `suffix_of` normalize_base root ++ PyStr.collapse (normalize_path name)
  /\ (doubled (normalize_path name) = false ->
      PyStr.collapse (normalize_path name) = normalize_path name).
Proof.
  exact (safe_join_clean no_check (py "media files")
           (py "/a//b c:d;v=1?q#top") eq_refl eq_refl).
Defined.

(** Names and roots that the amended claim covers. *)
Lemma clean_examples :
  clean_root (py "") = true
  /\ clean_root (py "/media/") = true
  /\ clean_root (py "a b") = true
  /\ clean_name no_check (py "a//b") = true
  /\ clean_name no_check (py "a b") = true
  /\ clean_name no_check (py "a/b:c") = true
  /\ clean_name no_check (py "a/b;c") = true
  /\ clean_name no_check (py "?q") = true
  /\ clean_name no_check (py "avatars/1.png") = true
  /\ clean_name no_check (py "photos/") = true.
Proof. repeat split; vm_compute; reflexivity. Qed.

(** Each condition of the amended claim is needed: a name with a scheme is
    rejected; a [.] segment, an empty fragment and a tab are dropped from
    the name; a root with [?], with a [.] segment or with an empty segment
    rejects an ordinary name. None of these has a [..] segment. *)
Lemma safe_join_clean_conditions_needed :
  let tab := ["009"%char] in
  let rejected root name r :=
    safe_join no_check root name
    = Raise (SuspiciousFileOperation r (normalize_base root)) in
  (clean_name no_check (py "x:y") = false
   /\ rejected (py "") (py "x:y") (py "x:y"))
  /\ (clean_name no_check (py "./a") = false
      /\ safe_join no_check (py "") (py "./a") = Ok (py "/a"))
  /\ (clean_name no_check (py "a#") = false
      /\ safe_join no_check (py "") (py "a#") = Ok (py "/a"))
  /\ (clean_name no_check (py "a" ++ tab ++ py "b") = false
      /\ safe_join no_check (py "") (py "a" ++ tab ++ py "b") = Ok (py "/ab"))
  /\ (clean_root (py "a?b") = false
      /\ rejected (py "a?b") (py "c") (py "/c"))
  /\ (clean_root (py ".") = false
      /\ rejected (py ".") (py "c") (py "/c"))
  /\ (clean_root (py "a//b") = false
      /\ rejected (py "a//b") (py "c") (py "/a/b/c")).
Proof. repeat split; vm_compute; reflexivity. Qed.


(** * Further properties of the path resolver *)

(** What a successful [safe_join] tells. *)
Lemma safe_join_ok_inv (chk : str -> bool) (base path s : str) :
  safe_join chk base path = Ok s ->
  normalize_base base `prefix_of` s
  /\ doubled s = false
  /\ exists u, Urllib.urljoin chk (normalize_base base) (normalize_path path)
               = Ok u /\ s = PyStr.collapse u.
Proof.
  unfold safe_join, rbind.
  destruct (Urllib.urljoin chk (normalize_base base) (normalize_path path))
    as [u|e]; [|done].
  destruct (PyStr.startswith (PyStr.collapse u) (normalize_base base)) eqn:Hp;
    [|done].
  intros [= <-]. split; [by apply startswith_true|].
  split; [apply collapse_head_doubled|]. by exists u.
Qed.

(** X1: whatever [safe_join] returns has no two separators in a row. *)
Theorem safe_join_never_doubled (chk : str -> bool) (base path s : str) :
  safe_join chk base path = Ok s -> doubled s = false.
Proof. intros H. by apply safe_join_ok_inv in H as (_ & ? & _). Qed.

Lemma safe_join_never_doubled_witness : doubled (py "/media/a/b/c") = false.
Proof.
  exact (safe_join_never_doubled no_check (py "media") (py "a///b//c")
           (py "/media/a/b/c") eq_refl).
Defined.

(** X2: a name made only of separators (the empty name too) resolves to the
    normalised root itself; when the normalised root has two separators in
    a row, the name is rejected instead. *)
Theorem safe_join_bare_root (chk : str -> bool) (base path : str) :
  Forall (fun c => c = PyStr.slash) path ->
  safe_join chk base path
  = if doubled (normalize_base base)
    then Raise (SuspiciousFileOperation
                  (PyStr.collapse (normalize_base base)) (normalize_base base))
    else Ok (normalize_base base).
Proof.
  intros Hall.
  assert (normalize_path path = []) as Hp.
  { apply lstrip_all. eapply Forall_impl; [exact Hall|].
    intros c ->. by apply is_slash_true. }
  unfold safe_join, rbind, Urllib.urljoin.
  rewrite Hp, normalize_base_nonempty. simpl.
  destruct (doubled (normalize_base base)) eqn:Hd.
  - destruct (PyStr.startswith _ _) eqn:Hs; [exfalso|done].
    apply startswith_true in Hs.
    pose proof (doubled_prefix _ _ Hd Hs) as Hc.
    by rewrite (proj2 (collapse_head_doubled _)) in Hc.
  - rewrite (collapse_id _ Hd).
    by rewrite (proj2 (startswith_true _ _)).
Qed.

Lemma safe_join_bare_root_witness :
  safe_join no_check (py "media") (py "//") = Ok (py "/media/").
Proof.
  exact (safe_join_bare_root no_check (py "media") (py "//")
           ltac:(repeat constructor)).
Defined.

(** X3: a root whose normalised form has two separators in a row accepts no
    name at all: [safe_join] raises for every name. *)
Theorem safe_join_doubled_root_rejects_all
    (chk : str -> bool) (base path : str) :
  doubled (normalize_base base) = true ->
  exists e, safe_join chk base path = Raise e.
Proof.
  intros Hd. destruct (safe_join chk base path) as [s|e] eqn:Hs; [|by exists e].
  apply safe_join_ok_inv in Hs as (Hpre & Hnd & _).
  pose proof (doubled_prefix _ _ Hd Hpre) as Hc. congruence.
Qed.

Lemma safe_join_doubled_root_rejects_all_witness :
  exists e, safe_join no_check (py "media//img") (py "a.png") = Raise e.
Proof.
  exact (safe_join_doubled_root_rejects_all no_check (py "media//img")
           (py "a.png") eq_refl).
Defined.

Section JoinDots.
Import PyStr Urllib.
Variable chk : str -> bool.

(** [urljoin] on two bare paths whose segments may be [.] and [..]. *)
Lemma urljoin_paths_dots base url rs us l x t :
  urlparse chk base [] = Ok (mkParse [] [] base [] [] []) ->
  urlparse chk url [] = Ok (mkParse [] [] url [] [] []) ->
  split slash base = [] :: rs ++ [[]] ->
  split slash url = us ++ [l] ->
  url = x :: t -> x <> slash ->
  Forall (fun seg => nonempty seg = true) rs ->
  Forall (fun seg => nonempty seg = true) us ->
  urljoin chk base url
  = Ok (let resolved := resolve_segments ([] :: rs ++ us ++ [l]) in
        let resolved := if bool_decide (l ∈ [py "."; py ".."])
                        then resolved ++ [[]]
                        else resolved in
        if nonempty (join slash resolved) then join slash resolved
        else py "/").
Proof.
  intros Hpb Hpu Hsb Hsu Hurl Hx Hrs Hus.
  assert (nonempty base = true) as Hnb.
  { destruct base; [|done]. simpl in Hsb. by destruct rs. }
  assert (nonempty url = true) as Hnu by (by rewrite Hurl).
  unfold urljoin. rewrite Hnb, Hnu, Hpb. cbn [negb rbind scheme].
  rewrite Hpu. cbn [rbind scheme netloc path params query fragment].
  decide_true (@nil ascii = []).
  decide_true ([] ∈ uses_relative).
  decide_true ([] ∈ uses_netloc).
  rewrite Hnu. cbn [negb orb andb nonempty].
  rewrite Hsb, Hsu.
  replace (List.last ([] :: rs ++ [[]]) []) with (@nil ascii)
    by (by rewrite app_comm_cons, last_last).
  cbn [nonempty].
  decide_false (take 1 url = py "/").
  { rewrite Hurl. simpl. intros [= ->]. done. }
  replace (([] :: rs ++ [[]]) ++ us ++ [l])
    with ([] :: (rs ++ [[]] ++ us) ++ [l])
    by (simpl; rewrite <- ?app_assoc; reflexivity).
  rewrite filter_middle_cons_snoc, !filter_app.
  assert (Hf : forall segs, Forall (fun seg => nonempty seg = true) segs ->
            filter (fun s => nonempty s) segs = segs).
  { induction 1 as [|seg segs Hseg _ IH]; [done|].
    rewrite filter_cons_True; [by rewrite IH|]. by rewrite Hseg. }
  rewrite (Hf rs Hrs), (Hf us Hus).
  change (filter (fun s => nonempty s) [[]]) with (@nil str).
  rewrite app_nil_l.
  replace (List.last ([] :: (rs ++ us) ++ [l]) []) with l
    by (by rewrite app_comm_cons, last_last).
  rewrite <- app_assoc. reflexivity.
Qed.

(** Popping [k] times. *)
Lemma resolve_dotdots k : forall acc,
  fold_left resolve_step (replicate k (py "..")) acc
  = take (length acc - k) acc.
Proof.
  induction k as [|k IH]; intros acc; simpl.
  - by rewrite Nat.sub_0_r, firstn_all.
  - unfold resolve_step at 2. rewrite decide_True by done. rewrite IH.
    destruct acc as [|a acc] using rev_ind; [done|].
    rewrite removelast_last, length_app. simpl.
    replace (length acc + 1 - S k) with (length acc - k) by lia.
    rewrite take_app_le by lia. done.
Qed.
End JoinDots.

Section Escape.
Import PyStr Urllib.
Variable chk : str -> bool.

Lemma plain_nonempty segs :
  Forall plain segs -> Forall (fun seg => nonempty seg = true) segs.
Proof.
  intros H. eapply Forall_impl; [exact H|].
  intros seg (Hne & _)%plain_inv. by destruct seg.
Qed.

(** The normalised form of a plain root parses to a bare path and splits
    into its segments. *)
Lemma plain_base_parse rs :
  Forall plain rs ->
  urlparse chk (join slash ([] :: rs ++ [[]])) []
  = Ok (mkParse [] [] (join slash ([] :: rs ++ [[]])) [] [] []).
Proof.
  intros Hrs.
  apply urlparse_quiet; [by apply mild_quiet, mild_around|].
  rewrite join_cons by (by destruct rs).
  pose proof (join_head_ne rs [] Hrs (or_introl eq_refl)) as Hh.
  destruct (join slash (rs ++ [[]])) as [|c rest]; [done|].
  simpl. intros [= ->]. done.
Qed.

Lemma plain_base_split rs :
  Forall plain rs ->
  split slash (join slash ([] :: rs ++ [[]])) = [] :: rs ++ [[]]
  /\ exists t, join slash ([] :: rs ++ [[]]) = slash :: t.
Proof.
  intros Hrs. split.
  - apply split_join; [done|]. by apply mild_no_slash, mild_around.
  - rewrite join_cons by (by destruct rs). by eexists.
Qed.

Lemma plain_depth base rs :
  Forall plain rs ->
  normalize_base base = join slash ([] :: rs ++ [[]]) ->
  depth base = length rs.
Proof.
  intros Hrs Hb. unfold depth. rewrite Hb.
  rewrite (proj1 (plain_base_split rs Hrs)).
  rewrite filter_cons_False by (by intros []).
  rewrite filter_app.
  change (filter (fun seg => nonempty seg) [[]]) with (@nil str).
  by rewrite app_nil_r, filter_nonempty.
Qed.

Lemma join_rest_head init l :
  Forall plain init -> mild l -> init ++ [l] <> [[]] ->
  exists x t, join slash (init ++ [l]) = x :: t /\ x <> slash.
Proof.
  intros Hinit Hl Hne.
  pose proof (join_head_ne init l Hinit Hl) as Hh.
  destruct (join slash (init ++ [l])) as [|x t] eqn:Hj; [|by exists x, t].
  exfalso. destruct Hinit as [|seg init Hseg _].
  - simpl in Hj. by subst l.
  - destruct (plain_head _ Hseg) as (y & r & -> & _).
    pose proof (head_join slash y r (init ++ [l])) as Hhd.
    rewrite <- app_comm_cons in Hj. by rewrite Hj in Hhd.
Qed.
End Escape.

(** X4: under a root with plain segments, a name that starts with more
    [..] segments than the root is deep, followed by plain segments,
    is rejected with the traversal error; the path reported is what follows
    the [..] segments. *)
Theorem safe_join_rejects_escape
    (chk : str -> bool) (base : str) (k : nat) (init : list str) (l : str) :
  plain_root base = true ->
  Forall plain init -> mild l -> init ++ [l] <> [[]] ->
  depth base < k ->
  safe_join chk base
    (PyStr.join PyStr.slash (replicate k (py "..") ++ init ++ [l]))
  = Raise (SuspiciousFileOperation (PyStr.join PyStr.slash (init ++ [l]))
             (normalize_base base)).
Proof.
  intros Hroot Hinit Hl Hne Hk.
  destruct (plain_root_segments base Hroot) as (rs & Hrs & Hb).
  rewrite (plain_depth base rs Hrs Hb) in Hk.
  pose proof (plain_base_parse chk rs Hrs) as Hpb.
  destruct (plain_base_split rs Hrs) as (Hsb & tb & Htb).
  destruct (join_rest_head init l Hinit Hl Hne) as (x & t & Hrest & Hx).
  destruct k as [|k]; [lia|].
  set (us := replicate (S k) (py "..") ++ init).
  set (name := PyStr.join PyStr.slash (replicate (S k) (py "..") ++ init ++ [l])).
  assert (Hname : name = "."%char :: drop 1 name).
  { pose proof (head_join PyStr.slash "." (py ".")
                  (replicate k (py "..") ++ init ++ [l])) as Hh.
    change (head name = Some "."%char) in Hh.
    destruct name; by simplify_eq/=. }
  assert (Hnp : normalize_path name = name).
  { unfold normalize_path. apply lstrip_id. by rewrite Hname. }
  assert (Hquiet_dd : Forall quiet (py "..")).
  { repeat constructor; by apply (bool_decide_eq_false_1 (_ ∈ _)). }
  assert (Hsegs : Forall (fun seg => Forall quiet seg /\ PyStr.slash ∉ seg)
                    (replicate (S k) (py "..") ++ init ++ [l])).
  { apply Forall_app. split; [|apply Forall_app; split].
    - apply Forall_replicate. split; [done|].
      by apply (bool_decide_eq_false_1 (_ ∈ _)).
    - eapply Forall_impl; [exact Hinit|]. intros seg Hseg.
      split; [by apply plain_quiet|by apply plain_no_slash].
    - constructor; [|constructor]. destruct Hl as [->|Hl].
      + split; [constructor|apply not_elem_of_nil].
      + split; [by apply plain_quiet|by apply plain_no_slash]. }
  assert (Hpu : Urllib.urlparse chk name []
                = Ok (Urllib.mkParse [] [] name [] [] [])).
  { apply urlparse_quiet.
    - apply Forall_join; [apply quiet_slash|].
      eapply Forall_impl; [exact Hsegs|]. by intros ? [].
    - rewrite Hname. destruct (drop 1 name); simpl; intros [=]. }
  assert (Hsu : PyStr.split PyStr.slash name = us ++ [l]).
  { unfold name, us. rewrite <- app_assoc. apply split_join; [done|].
    eapply Forall_impl; [exact Hsegs|]. by intros ? []. }
  assert (Hus : Forall (fun seg => Urllib.nonempty seg = true) us).
  { apply Forall_app. split; [by apply Forall_replicate|].
    by apply plain_nonempty. }
  assert (Hl' : l <> py "." /\ l <> py "..").
  { destruct Hl as [->|Hl]; [done|].
    by apply plain_inv in Hl as (_ & _ & ? & ?). }
  assert (Hno : forall segs, Forall plain segs ->
            Forall (fun s => s <> py "." /\ s <> py "..") segs).
  { intros segs H. eapply Forall_impl; [exact H|].
    by intros s (_ & _ & ? & ?)%plain_inv. }
  assert (Hu : Urllib.urljoin chk (normalize_base base) name
               = Ok (PyStr.join PyStr.slash (init ++ [l]))).
  { rewrite Hb.
    rewrite (urljoin_paths_dots chk _ name rs us l "." (drop 1 name)
               Hpb Hpu Hsb Hsu Hname ltac:(done)
               (plain_nonempty rs Hrs) Hus).
    cbv zeta. unfold us, Urllib.resolve_segments.
    rewrite app_comm_cons, <- !app_assoc, !fold_left_app.
    rewrite (resolve_no_dots ([] :: rs) [])
      by (constructor; [done|by apply Hno]).
    cbn [app]. rewrite resolve_dotdots.
    replace (length ([] :: rs) - S k) with 0 by (simpl; lia).
    rewrite take_0, <- fold_left_app, resolve_no_dots.
    2:{ apply Forall_app. split; [by apply Hno|].
        constructor; [exact Hl'|constructor]. }
    cbn [app].
    decide_false (l ∈ [py "."; py ".."]).
    { rewrite !elem_of_cons, elem_of_nil. tauto. }
    by rewrite Hrest. }
  unfold safe_join, rbind. rewrite Hnp, Hu.
  rewrite (collapse_plain_segments init l Hinit Hl).
  destruct (PyStr.startswith _ _) eqn:Hs; [exfalso|done].
  apply startswith_true in Hs. rewrite Hb, Htb, Hrest in Hs.
  destruct Hs as [r Hr]. injection Hr as -> _. done.
Qed.

Lemma safe_join_rejects_escape_witness :
  safe_join no_check (py "/media/") (py "../../etc/passwd")
  = Raise (SuspiciousFileOperation (py "etc/passwd") (py "/media/")).
Proof.
  apply (safe_join_rejects_escape no_check (py "/media/") 2
           [py "etc"] (py "passwd")).
  - reflexivity.
  - repeat constructor.
  - right. reflexivity.
  - discriminate.
  - vm_compute. lia.
Defined.

(** * Further properties of the facade and of the file *)

Ltac run_bucket :=
  unfold _save, _open, created_time, delete, exists_, size_, modified_time,
    listdir, url, resolve, except_NotFound, Gcloud.get_blob, Gcloud.download,
    Gcloud.delete_blob, Gcloud.list_blobs, Gcloud.upload_from_file,
    prepare_name, request, raise, lift, mbind, M_bind, mret, M_ret.

(** What [_open] returns for an object that is there. *)
Lemma _open_ok (chk : str -> bool) (name key : str) (o : Blob) (b : bucket) :
  safe_join chk bucket_subdir name = Ok key ->
  objects b !! key = Some o ->
  faults b = [] ->
  _open chk name b
  = (Ok (mkGCloudFile true (mkFile (content o) 0 false) (Some key)),
     mkBucket (objects b) (now b)
       ((calls b ++ [CallGet key]) ++ [CallDownload key]) []).
Proof.
  intros Hj Ho Hf. run_bucket. rewrite Hj. simpl.
  unfold next_fault. rewrite Hf. simpl. rewrite Ho. simpl. rewrite Ho.
  by rewrite write_init.
Qed.

(** What [_save] does when the content has a descriptor and the service
    accepts the upload. *)
Lemma _save_ok (chk : str -> bool) (name key : str) (c : pyfile) (b : bucket) :
  safe_join chk bucket_subdir name = Ok key ->
  closed c = false ->
  next_fault b = None ->
  _save chk name (mkContent c true) b
  = (Ok (key, mkFile (data c)
                (pos c + length (drop (pos c) (data c))) false),
     mkBucket
       (<[key := mkBlob (drop (pos c) (data c)) (now b) (Some (now b))]>
          (objects b))
       (now b + 1)
       (calls b ++ [CallUpload key (drop (pos c) (data c))])
       (tail (faults b))).
Proof.
  intros Hj Hc Hf. run_bucket. rewrite Hj. simpl. by rewrite Hc, Hf.
Qed.


(** X5: a name that [safe_join] rejects stops every method before anything
    is sent to the bucket: the method raises the error of [safe_join] and
    the bucket, its log of requests included, is as before. *)
Theorem rejected_name_reaches_no_request
    (chk : str -> bool) (sign : str -> Z -> str) (clock : Z)
    (name : str) (c : content_file) (e : exn) (b : bucket) :
  safe_join chk bucket_subdir name = Raise e ->
  _save chk name c b = (Raise e, b)
  /\ _open chk name b = (Raise e, b)
  /\ created_time chk name b = (Raise e, b)
  /\ delete chk name b = (Raise e, b)
  /\ exists_ chk name b = (Raise e, b)
  /\ size_ chk name b = (Raise e, b)
  /\ modified_time chk name b = (Raise e, b)
  /\ listdir chk name b = (Raise e, b)
  /\ url chk sign clock name b = (Raise e, b).
Proof.
  intros Hj. run_bucket. rewrite Hj. simpl. repeat split.
Qed.

Lemma rejected_name_reaches_no_request_witness :
  let e := SuspiciousFileOperation (py "x:y") (py "/") in
  let b := empty_bucket in
  let c := mkContent (mkFile (text "abc") 0 false) true in
  _save no_check (py "x:y") c b = (Raise e, b)
  /\ _open no_check (py "x:y") b = (Raise e, b)
  /\ created_time no_check (py "x:y") b = (Raise e, b)
  /\ delete no_check (py "x:y") b = (Raise e, b)
  /\ exists_ no_check (py "x:y") b = (Raise e, b)
  /\ size_ no_check (py "x:y") b = (Raise e, b)
  /\ modified_time no_check (py "x:y") b = (Raise e, b)
  /\ listdir no_check (py "x:y") b = (Raise e, b)
  /\ url no_check (fun k _ => k) 0 (py "x:y") b = (Raise e, b).
Proof.
  exact (rejected_name_reaches_no_request no_check (fun k _ => k) 0%Z
           (py "x:y") (mkContent (mkFile (text "abc") 0 false) true)
           (SuspiciousFileOperation (py "x:y") (py "/")) empty_bucket
           eq_refl).
Defined.

(** X6: after [_save] of a name that resolves, with a content file that
    has a descriptor and is open, and a service that answers, the object
    under the returned key holds the content from the cursor of the file on
    (not from its start), whatever was stored there before; [exists] then
    answers [True], [size] the number of bytes stored, and [_open] gives a
    buffer with exactly these bytes and the cursor at the start. *)
Theorem save_then_open_round_trip
    (chk : str -> bool) (name key : str) (c : content_file) (b : bucket) :
  safe_join chk bucket_subdir name = Ok key ->
  has_fileno c = true ->
  closed (file_of c) = false ->
  faults b = [] ->
  let stored := drop (pos (file_of c)) (data (file_of c)) in
  exists c' b1,
    _save chk name c b = (Ok (key, c'), b1)
    /\ content <$> objects b1 !! key = Some stored
    /\ (exists_ chk name b1).1 = Ok true
    /\ (size_ chk name b1).1
       = Ok (Some (length (data (file_of c)) - pos (file_of c)))
    /\ exists f b2,
         _open chk name b1 = (Ok f, b2)
         /\ data (_tmpfile f) = stored
         /\ pos (_tmpfile f) = 0.
Proof.
  destruct c as [c fd]. simpl. intros Hj -> Hc Hf.
  assert (next_fault b = None) as Hnf by (unfold next_fault; by rewrite Hf).
  rewrite (_save_ok chk name key c b Hj Hc Hnf). rewrite Hf. simpl tail.
  eexists _, _. split; [reflexivity|]. simpl objects.
  split; [by rewrite lookup_insert_eq|].
  split; [|split].
  - run_bucket. rewrite Hj. simpl. by rewrite lookup_insert_eq.
  - run_bucket. rewrite Hj. simpl. rewrite lookup_insert_eq. simpl.
    unfold size. simpl. by rewrite length_drop.
  - eexists _, _. split.
    + eapply _open_ok; [exact Hj| |reflexivity].
      simpl. apply lookup_insert_eq.
    + done.
Qed.

Lemma save_then_open_round_trip_witness :
  let c := mkContent (mkFile (text "header:body") 7 false) true in
  exists c' b1,
    _save no_check (py "docs/a.txt") c empty_bucket
    = (Ok (py "/docs/a.txt", c'), b1)
    /\ content <$> objects b1 !! py "/docs/a.txt" = Some (text "body")
    /\ (exists_ no_check (py "docs/a.txt") b1).1 = Ok true
    /\ (size_ no_check (py "docs/a.txt") b1).1 = Ok (Some 4)
    /\ exists f b2,
         _open no_check (py "docs/a.txt") b1 = (Ok f, b2)
         /\ data (_tmpfile f) = text "body"
         /\ pos (_tmpfile f) = 0.
Proof.
  exact (save_then_open_round_trip no_check (py "docs/a.txt")
           (py "/docs/a.txt")
           (mkContent (mkFile (text "header:body") 7 false) true)
           empty_bucket eq_refl eq_refl eq_refl eq_refl).
Defined.



(** X7: what [close] uploads is what the next [_open] of the same name
    reads: after a dirty file on the key of a name is closed with a service
    that answers, [_open] of that name gives a buffer equal to the whole
    buffer of the closed file, with the cursor at the start. *)
Theorem close_then_open_round_trip
    (chk : str -> bool) (name key : str) (f : GCloudFile) (b : bucket) :
  safe_join chk bucket_subdir name = Ok key ->
  _blob f = Some key ->
  _dirty f = true ->
  closed (_tmpfile f) = false ->
  faults b = [] ->
  exists f1 b1 g b2,
    GCloudFile.close f b = (Ok tt, f1, b1)
    /\ _open chk name b1 = (Ok g, b2)
    /\ data (_tmpfile g) = data (_tmpfile f)
    /\ pos (_tmpfile g) = 0.
Proof.
  intros Hj Hb Hd Hc Hf.
  unfold GCloudFile.close, Gcloud.upload_from_file, request, next_fault.
  rewrite Hd, Hb, Hc, Hf, drop_0. simpl.
  eexists _, _, _, _. split; [reflexivity|]. split.
  - eapply _open_ok; [exact Hj| |reflexivity]. simpl. apply lookup_insert_eq.
  - done.
Qed.

Lemma close_then_open_round_trip_witness :
  let f := mkGCloudFile true (mkFile (text "draft") 2 false)
             (Some (py "/n.txt")) in
  exists f1 b1 g b2,
    GCloudFile.close f empty_bucket = (Ok tt, f1, b1)
    /\ _open no_check (py "n.txt") b1 = (Ok g, b2)
    /\ data (_tmpfile g) = text "draft"
    /\ pos (_tmpfile g) = 0.
Proof.
  exact (close_then_open_round_trip no_check (py "n.txt") (py "/n.txt")
           (mkGCloudFile true (mkFile (text "draft") 2 false)
              (Some (py "/n.txt")))
           empty_bucket eq_refl eq_refl eq_refl eq_refl eq_refl).
Defined.

(** X8: reading a freshly opened file gives the remote content: [read()]
    returns all of it, and [read(n)] followed by [read()] returns its first
    [n] bytes and then the rest; reading changes neither the buffer nor the
    flag. *)
Theorem open_then_read_returns_content
    (chk : str -> bool) (name key : str) (o : Blob) (b : bucket) (n : nat) :
  safe_join chk bucket_subdir name = Ok key ->
  objects b !! key = Some o ->
  faults b = [] ->
  exists f b1,
    _open chk name b = (Ok f, b1)
    /\ (GCloudFile.read None f).1 = Ok (content o)
    /\ (GCloudFile.read (Some n) f).1 = Ok (take n (content o))
    /\ (GCloudFile.read None (GCloudFile.read (Some n) f).2).1
       = Ok (drop n (content o))
    /\ data (_tmpfile (GCloudFile.read (Some n) f).2) = content o
    /\ _dirty (GCloudFile.read (Some n) f).2 = _dirty f.
Proof.
  intros Hj Ho Hf. rewrite (_open_ok chk name key o b Hj Ho Hf).
  eexists _, _. split; [reflexivity|].
  unfold GCloudFile.read, PyFile.read. simpl. rewrite !drop_0.
  repeat split. rewrite length_take.
  destruct (decide (n <= length (content o))).
  - by rewrite Nat.min_l.
  - rewrite Nat.min_r by lia. by rewrite !drop_ge by lia.
Qed.

Lemma open_then_read_returns_content_witness :
  let b := mkBucket {[ py "/a.txt" := mkBlob (text "abcdef") 7 None ]}
             8 [] [] in
  exists f b1,
    _open no_check (py "a.txt") b = (Ok f, b1)
    /\ (GCloudFile.read None f).1 = Ok (text "abcdef")
    /\ (GCloudFile.read (Some 2) f).1 = Ok (take 2 (text "abcdef"))
    /\ (GCloudFile.read None (GCloudFile.read (Some 2) f).2).1
       = Ok (drop 2 (text "abcdef"))
    /\ data (_tmpfile (GCloudFile.read (Some 2) f).2) = text "abcdef"
    /\ _dirty (GCloudFile.read (Some 2) f).2 = _dirty f.
Proof.
  intros b.
  apply (open_then_read_returns_content no_check (py "a.txt") (py "/a.txt")
           (mkBlob (text "abcdef") 7 None) b 2).
  - reflexivity.
  - vm_compute. reflexivity.
  - reflexivity.
Defined.

(** A [close] that returns normally leaves the temporary file closed and
    the flag cleared, and keeps the blob. *)
Lemma close_ok_inv (f0 f : GCloudFile) (b0 b : bucket) :
  GCloudFile.close f0 b0 = (Ok tt, f, b) ->
  closed (_tmpfile f) = true /\ _dirty f = false /\ _blob f = _blob f0.
Proof.
  unfold GCloudFile.close. intros H.
  destruct (_dirty f0).
  - destruct (_blob f0) as [key|] eqn:Hb; [|done].
    destruct (Gcloud.upload_from_file key (_tmpfile f0) true b0)
      as [[[[]|e] t] b']; [|done].
    by injection H as <- <-.
  - by injection H as <- <-.
Qed.

(** X9: once [close] has returned normally, [write] raises [ValueError]
    but has set the flag already; from then on every [close] raises
    [ValueError] too, before anything is sent to the bucket, and leaves the
    file as it is. [read] and [seek] raise as well. *)
Theorem write_after_close_breaks_close
    (key : str) (f0 f : GCloudFile) (c : bytes) (b0 b1 b : bucket) :
  GCloudFile.close f0 b0 = (Ok tt, f, b1) ->
  _blob f0 = Some key ->
  let f' := (GCloudFile.write c f).2 in
  (GCloudFile.write c f).1 = Raise ValueError
  /\ _dirty f' = true
  /\ GCloudFile.close f' b = (Raise ValueError, f', b)
  /\ (GCloudFile.read None f).1 = Raise ValueError
  /\ (GCloudFile.seek 0 f).1 = Raise ValueError.
Proof.
  intros (Hc & _ & Hb)%close_ok_inv Hb0. rewrite Hb0 in Hb.
  destruct f as [d [dat p cl] bl]; simpl in *; subst cl bl.
  unfold GCloudFile.write, GCloudFile.read, GCloudFile.seek,
    GCloudFile.close, Gcloud.upload_from_file; simpl.
  repeat split.
Qed.

Lemma write_after_close_breaks_close_witness :
  let f0 := mkGCloudFile false (mkFile (text "abc") 3 false)
              (Some (py "/k")) in
  let f := mkGCloudFile false (mkFile (text "abc") 3 true) (Some (py "/k")) in
  let f' := (GCloudFile.write (text "d") f).2 in
  (GCloudFile.write (text "d") f).1 = Raise ValueError
  /\ _dirty f' = true
  /\ GCloudFile.close f' empty_bucket = (Raise ValueError, f', empty_bucket)
  /\ (GCloudFile.read None f).1 = Raise ValueError
  /\ (GCloudFile.seek 0 f).1 = Raise ValueError.
Proof.
  exact (write_after_close_breaks_close (py "/k")
           (mkGCloudFile false (mkFile (text "abc") 3 false) (Some (py "/k")))
           (mkGCloudFile false (mkFile (text "abc") 3 true) (Some (py "/k")))
           (text "d") empty_bucket empty_bucket empty_bucket
           eq_refl eq_refl).
Defined.

(** X10: [_update_blob] uploads the whole buffer like [close] does, but
    keeps the flag and leaves the temporary file open, so a [close] after
    it uploads the same bytes a second time. *)
Theorem update_blob_keeps_flag
    (key : str) (f : GCloudFile) (b : bucket) :
  _blob f = Some key ->
  _dirty f = true ->
  closed (_tmpfile f) = false ->
  faults b = [] ->
  let '(r1, f1, b1) := _update_blob f b in
  let '(r2, f2, b2) := GCloudFile.close f1 b1 in
  r1 = Ok tt
  /\ _dirty f1 = true
  /\ closed (_tmpfile f1) = false
  /\ data (_tmpfile f1) = data (_tmpfile f)
  /\ r2 = Ok tt
  /\ calls b2 = calls b ++ [CallUpload key (data (_tmpfile f));
                            CallUpload key (data (_tmpfile f))].
Proof.
  intros Hb Hd Hc Hf. destruct f as [d [dat p cl] bl]; simpl in *. subst.
  unfold _update_blob, GCloudFile.close, Gcloud.upload_from_file, request,
    next_fault; simpl.
  rewrite Hf, drop_0. simpl. rewrite drop_0. simpl.
  repeat (split; [reflexivity|]). by rewrite <- app_assoc.
Qed.

Lemma update_blob_keeps_flag_witness :
  let f := mkGCloudFile true (mkFile (text "abc") 1 false) (Some (py "/k")) in
  let '(r1, f1, b1) := _update_blob f empty_bucket in
  let '(r2, f2, b2) := GCloudFile.close f1 b1 in
  r1 = Ok tt
  /\ _dirty f1 = true
  /\ closed (_tmpfile f1) = false
  /\ data (_tmpfile f1) = text "abc"
  /\ r2 = Ok tt
  /\ calls b2 = calls empty_bucket ++ [CallUpload (py "/k") (text "abc");
                                       CallUpload (py "/k") (text "abc")].
Proof.
  exact (update_blob_keeps_flag (py "/k")
           (mkGCloudFile true (mkFile (text "abc") 1 false) (Some (py "/k")))
           empty_bucket eq_refl eq_refl eq_refl eq_refl).
Defined.

(** X11: [delete] of a name whose object is there removes that object and
    no other; [exists] then answers [False] and a second [delete] returns
    normally with the objects unchanged. *)
Theorem delete_removes_object
    (chk : str -> bool) (name key : str) (o : Blob) (b : bucket) :
  safe_join chk bucket_subdir name = Ok key ->
  objects b !! key = Some o ->
  faults b = [] ->
  let b1 := (delete chk name b).2 in
  (delete chk name b).1 = Ok tt
  /\ objects b1 = base.delete key (objects b)
  /\ (exists_ chk name b1).1 = Ok false
  /\ (delete chk name b1).1 = Ok tt
  /\ objects (delete chk name b1).2 = objects b1.
Proof.
  intros Hj Ho Hf. run_bucket. rewrite Hj. simpl.
  unfold next_fault. rewrite Hf, Ho. simpl.
  rewrite !lookup_delete_eq. simpl.
  repeat split.
Qed.

Lemma delete_removes_object_witness :
  let b := mkBucket {[ py "/a.txt" := mkBlob (text "abc") 7 None ]} 8 [] [] in
  let b1 := (delete no_check (py "a.txt") b).2 in
  (delete no_check (py "a.txt") b).1 = Ok tt
  /\ objects b1 = base.delete (py "/a.txt") (objects b)
  /\ (exists_ no_check (py "a.txt") b1).1 = Ok false
  /\ (delete no_check (py "a.txt") b1).1 = Ok tt
  /\ objects (delete no_check (py "a.txt") b1).2 = objects b1.
Proof.
  intros b.
  apply (delete_removes_object no_check (py "a.txt") (py "/a.txt")
           (mkBlob (text "abc") 7 None) b).
  - reflexivity.
  - vm_compute. reflexivity.
  - reflexivity.
Defined.

(** X12: [_save], [delete] and [close] change at most the object under the
    key they work on: whatever the outcome, every other key of the bucket
    holds what it held before. *)
Theorem other_keys_untouched
    (chk : str -> bool) (name key k : str) (c : content_file)
    (f : GCloudFile) (b : bucket) :
  safe_join chk bucket_subdir name = Ok key ->
  _blob f = Some key ->
  k <> key ->
  objects (_save chk name c b).2 !! k = objects b !! k
  /\ objects (delete chk name b).2 !! k = objects b !! k
  /\ objects (GCloudFile.close f b).2 !! k = objects b !! k.
Proof.
  intros Hj Hb Hk. split; [|split].
  - run_bucket. rewrite Hj. simpl.
    destruct (has_fileno c); [|done].
    destruct (closed (file_of c)); [done|].
    destruct (next_fault b); simpl; [done|].
    by rewrite lookup_insert_ne.
  - run_bucket. rewrite Hj. simpl.
    destruct (next_fault b); simpl; [by destruct (fault_exn _)|].
    destruct (objects b !! key); simpl; [|done].
    by rewrite lookup_delete_ne.
  - unfold GCloudFile.close, Gcloud.upload_from_file, request. rewrite Hb.
    destruct (_dirty f); [|done].
    destruct (closed (_tmpfile f)); [done|].
    destruct (next_fault b); simpl; [done|].
    by rewrite lookup_insert_ne.
Qed.

Lemma other_keys_untouched_witness :
  let b := mkBucket {[ py "/keep" := mkBlob (text "k") 1 None ]} 2 [] [] in
  let c := mkContent (mkFile (text "new") 0 false) true in
  let f := mkGCloudFile true (mkFile (text "new") 0 false) (Some (py "/a")) in
  objects (_save no_check (py "a") c b).2 !! py "/keep"
  = objects b !! py "/keep"
  /\ objects (delete no_check (py "a") b).2 !! py "/keep"
     = objects b !! py "/keep"
  /\ objects (GCloudFile.close f b).2 !! py "/keep" = objects b !! py "/keep".
Proof.
  intros b c f.
  apply (other_keys_untouched no_check (py "a") (py "/a") (py "/keep") c f b).
  - reflexivity.
  - reflexivity.
  - discriminate.
Defined.

(** X13: the reading methods ([_open], [exists], [size], [modified_time],
    [created_time], [listdir], [url]) never change the objects of the
    bucket, whatever they return or raise, and they never upload. *)
Theorem reading_methods_change_nothing
    (chk : str -> bool) (sign : str -> Z -> str) (clock : Z)
    (name : str) (b : bucket) :
  Forall (fun b' => objects b' = objects b
                    /\ upload_count b' = upload_count b)
    [(_open chk name b).2; (exists_ chk name b).2; (size_ chk name b).2;
     (modified_time chk name b).2; (created_time chk name b).2;
     (listdir chk name b).2; (url chk sign clock name b).2].
Proof.
  assert (Hlog : forall c o n fs, is_upload c = false ->
            upload_count (mkBucket o n (calls b ++ [c]) fs) = upload_count b).
  { intros c o n fs Hc. rewrite upload_count_snoc, Hc. lia. }
  assert (Hlog2 : forall c1 c2 o n fs,
            is_upload c1 = false -> is_upload c2 = false ->
            upload_count (mkBucket o n ((calls b ++ [c1]) ++ [c2]) fs)
            = upload_count b).
  { intros c1 c2 o n fs H1 H2.
    rewrite (upload_count_snoc (mkBucket o n (calls b ++ [c1]) fs)).
    rewrite H2, Hlog by done. lia. }
  repeat constructor; run_bucket;
    (destruct (safe_join chk bucket_subdir name) as [key|e]; simpl;
     [|done]);
    (destruct (next_fault b) as [flt|] eqn:Hf; simpl;
     [by rewrite ?Hlog|]);
    try (destruct (objects b !! key) as [o|] eqn:Ho; simpl);
    rewrite ?Hlog by done; try done.
  all: unfold next_fault; simpl.
  all: destruct (mjoin (head (tail (faults b)))) as [flt|]; simpl;
    rewrite ?Hlog2 by done; try done.
  all: rewrite ?Ho; simpl; rewrite ?write_init; simpl;
    by rewrite ?Hlog2 by done.
Qed.

(** X14: [url] of a name with no object raises [AttributeError] (the blob
    is [None]); for an object that is there it signs the resolved key with
    an expiry exactly one hour (3600 seconds) after the clock. *)
Theorem url_signs_resolved_key_for_an_hour
    (chk : str -> bool) (sign : str -> Z -> str) (clock : Z)
    (name key : str) (b : bucket) :
  safe_join chk bucket_subdir name = Ok key ->
  next_fault b = None ->
  (url chk sign clock name b).1
  = match objects b !! key with
    | Some _ => Ok (sign key (clock + 3600)%Z)
    | None => Raise AttributeError
    end.
Proof.
  intros Hj Hf. run_bucket. rewrite Hj. simpl. rewrite Hf. simpl.
  by destruct (objects b !! key).
Qed.

Lemma url_signs_resolved_key_for_an_hour_witness :
  (url no_check (fun k t => k) 100 (py "missing.txt") empty_bucket).1
  = Raise AttributeError.
Proof.
  exact (url_signs_resolved_key_for_an_hour no_check (fun k t => k) 100
           (py "missing.txt") (py "/missing.txt") empty_bucket
           eq_refl eq_refl).
Defined.

(** ** Listing after saving *)

Lemma omap_item_sublist prefix (keys : list str) :
  omap (Gcloud.item_of prefix PyStr.slash) keys `sublist_of` keys.
Proof.
  induction keys as [|k keys IH]; [done|]. simpl.
  destruct (Gcloud.item_of prefix PyStr.slash k) as [n|] eqn:Hi; simpl.
  - apply item_of_Some in Hi as [-> _]. by apply sublist_skip.
  - by apply sublist_cons.
Qed.

(** What [listdir] returns for a path that resolves when the service
    answers: the entries, and that none is listed twice. *)
Lemma listdir_entries (chk : str -> bool) (path key : str) (b : bucket) :
  safe_join chk bucket_subdir path = Ok key ->
  next_fault b = None ->
  exists dirs files,
    (listdir chk path b).1 = Ok (dirs, files)
    /\ (forall f, f ∈ files <->
          (PyStr.slash ∉ f) /\ is_Some (objects b !! (key ++ f)))
    /\ (forall d, d ∈ dirs <->
          (PyStr.slash ∉ d)
          /\ exists k, is_Some (objects b !! k)
                       /\ (key ++ d ++ [PyStr.slash]) `prefix_of` k)
    /\ NoDup dirs /\ NoDup files.
Proof.
  intros Hj Hf. run_bucket. rewrite Hj. simpl. rewrite Hf. simpl.
  eexists _, _. split; [reflexivity|].
  split; [|split; [|split]].
  - intros f. unfold sort. rewrite merge_sort_Permutation.
    rewrite list_elem_of_fmap. setoid_rewrite list_elem_of_omap.
    setoid_rewrite elem_of_keys. setoid_rewrite item_of_Some. split.
    + intros (n & -> & k & Hk & -> & rest & -> & Hn).
      by rewrite remove_prefix_app.
    + intros [Hn Hk]. exists (key ++ f). rewrite remove_prefix_app.
      split; [done|]. exists (key ++ f). split; [done|].
      split; [done|]. by exists f.
  - intros d. unfold sort. rewrite merge_sort_Permutation.
    rewrite list_elem_of_fmap. setoid_rewrite elem_of_elements.
    setoid_rewrite elem_of_list_to_set. setoid_rewrite list_elem_of_omap.
    setoid_rewrite elem_of_keys. setoid_rewrite prefix_of_key_Some. split.
    + intros (p & -> & k & Hk & d' & more & -> & Hn & ->).
      rewrite remove_prefix_app, rstrip_snoc by done.
      split; [done|]. exists (key ++ d' ++ PyStr.slash :: more).
      split; [done|]. exists more. by rewrite <- !app_assoc.
    + intros (Hn & k & Hk & more & ->).
      exists (key ++ d ++ [PyStr.slash]).
      rewrite remove_prefix_app, rstrip_snoc by done. split; [done|].
      eexists. split; [exact Hk|]. exists d, more.
      by rewrite <- !app_assoc.
  - unfold sort. rewrite merge_sort_Permutation.
    apply NoDup_fmap_2_strong; [|apply NoDup_elements].
    intros p q Hp Hq.
    rewrite elem_of_elements, elem_of_list_to_set, list_elem_of_omap in Hp, Hq.
    destruct Hp as (k1 & _ & (d1 & m1 & _ & Hn1 & ->)%prefix_of_key_Some).
    destruct Hq as (k2 & _ & (d2 & m2 & _ & Hn2 & ->)%prefix_of_key_Some).
    rewrite !remove_prefix_app, !rstrip_snoc by done. by intros ->.
  - unfold sort. rewrite merge_sort_Permutation.
    apply NoDup_fmap_2_strong.
    + intros n1 n2 H1 H2. rewrite list_elem_of_omap in H1, H2.
      destruct H1 as (k1 & _ & (-> & r1 & -> & _)%item_of_Some).
      destruct H2 as (k2 & _ & (-> & r2 & -> & _)%item_of_Some).
      rewrite !remove_prefix_app. by intros ->.
    + eapply sublist_NoDup; [|apply omap_item_sublist].
      apply NoDup_fst_map_to_list.
Qed.

(** X15: what was saved shows up in the listing of its directory. When a
    directory path resolves to a key prefix and a name resolves to that
    prefix followed by a relative path, then after a [_save] of the name
    that succeeds -- the content file has a descriptor and is open, and the
    service answers -- [listdir] of the directory lists the relative path
    among the files when it has no separator, and otherwise lists its first
    segment among the directories. *)
Theorem saved_name_is_listed
    (chk : str -> bool) (dir name dkey rel : str) (c : content_file)
    (b : bucket) :
  safe_join chk bucket_subdir dir = Ok dkey ->
  safe_join chk bucket_subdir name = Ok (dkey ++ rel) ->
  has_fileno c = true ->
  closed (file_of c) = false ->
  faults b = [] ->
  exists c' b1 dirs files,
    _save chk name c b = (Ok (dkey ++ rel, c'), b1)
    /\ (listdir chk dir b1).1 = Ok (dirs, files)
    /\ match PyStr.find PyStr.slash rel with
       | None => rel ∈ files
       | Some i => take i rel ∈ dirs
       end.
Proof.
  destruct c as [c fd]. simpl. intros Hd Hn -> Hc Hf.
  assert (next_fault b = None) as Hnf by (unfold next_fault; by rewrite Hf).
  rewrite (_save_ok chk name (dkey ++ rel) c b Hn Hc Hnf).
  rewrite Hf. cbn [tail].
  set (b1 := mkBucket _ _ _ _).
  destruct (listdir_entries chk dir dkey b1 Hd eq_refl)
    as (dirs & files & Hl & Hfiles & Hdirs & _).
  eexists _, b1, dirs, files. split; [reflexivity|]. split; [exact Hl|].
  assert (is_Some (objects b1 !! (dkey ++ rel))) as Hk.
  { unfold b1. simpl. rewrite lookup_insert_eq. by eexists. }
  destruct (PyStr.find PyStr.slash rel) as [i|] eqn:Hfind.
  - destruct (find_Some _ _ _ Hfind) as [Hno Hi].
    apply Hdirs. split; [done|]. exists (dkey ++ rel). split; [done|].
    exists (drop (S i) rel).
    rewrite <- (take_drop_middle rel i PyStr.slash Hi) at 1.
    by rewrite <- !app_assoc.
  - apply Hfiles. split; [|done]. by apply find_None.
Qed.

Lemma saved_name_is_listed_witness :
  let c := mkContent (mkFile (text "jpeg") 0 false) true in
  exists c' b1 dirs files,
    _save no_check (py "photos/sub/b.jpg") c empty_bucket
    = (Ok (py "/photos/sub/b.jpg", c'), b1)
    /\ (listdir no_check (py "photos/") b1).1 = Ok (dirs, files)
    /\ match PyStr.find PyStr.slash (py "sub/b.jpg") with
       | None => py "sub/b.jpg" ∈ files
       | Some i => take i (py "sub/b.jpg") ∈ dirs
       end.
Proof.
  exact (saved_name_is_listed no_check (py "photos/") (py "photos/sub/b.jpg")
           (py "/photos/") (py "sub/b.jpg")
           (mkContent (mkFile (text "jpeg") 0 false) true)
           empty_bucket eq_refl eq_refl eq_refl eq_refl eq_refl).
Defined.

(** X16: [listdir] lists no entry twice: neither the files nor the
    directories it returns contain a duplicate. *)
Theorem listdir_lists_nothing_twice
    (chk : str -> bool) (path : str) (b : bucket) :
  match (listdir chk path b).1 with
  | Ok (dirs, files) => NoDup dirs /\ NoDup files
  | Raise _ => True
  end.
Proof.
  destruct (safe_join chk bucket_subdir path) as [key|e] eqn:Hj.
  - destruct (next_fault b) as [flt|] eqn:Hf.
    + run_bucket. rewrite Hj. simpl. by rewrite Hf.
    + destruct (listdir_entries chk path key b Hj Hf)
        as (dirs & files & -> & _ & _ & ? & ?). done.
  - run_bucket. by rewrite Hj.
Qed.

(** X17: the key that [_save] returns is the key it stored the object
    under; it starts with the separator and has no two separators in a
    row. *)
Theorem saved_key_shape
    (chk : str -> bool) (name key : str) (c : content_file) (c' : pyfile)
    (b b1 : bucket) :
  _save chk name c b = (Ok (key, c'), b1) ->
  head key = Some PyStr.slash
  /\ doubled key = false
  /\ is_Some (objects b1 !! key).
Proof.
  run_bucket.
  destruct (safe_join chk bucket_subdir name) as [k|e] eqn:Hj; simpl; [|done].
  destruct (has_fileno c); [|done].
  destruct (closed (file_of c)); [done|].
  destruct (next_fault b); simpl; [done|].
  intros [= <- <- <-]. simpl.
  apply safe_join_ok_inv in Hj as ([t ->] & Hd & _).
  split; [done|]. split; [done|].
  rewrite lookup_insert_eq. by eexists.
Qed.

Lemma saved_key_shape_witness :
  head (py "/a/b.txt") = Some PyStr.slash
  /\ doubled (py "/a/b.txt") = false
  /\ is_Some (objects (_save no_check (py "a//b.txt")
                         (mkContent (mkFile (text "x") 0 false) true)
                         empty_bucket).2
              !! py "/a/b.txt").
Proof.
  exact (saved_key_shape no_check (py "a//b.txt") (py "/a/b.txt")
           (mkContent (mkFile (text "x") 0 false) true) _ empty_bucket _
           eq_refl).
Defined.

(** ** Names with a URL scheme *)

Section Schemes.
Import PyStr Urllib.
Variable chk : str -> bool.

Lemma scheme_char_safe c :
  scheme_char c = true ->
  c <> ":"%char /\ c <> slash /\ unsafe_url_byte c = false.
Proof. destruct c as [[] [] [] [] [] [] [] []]; by vm_compute. Qed.

Lemma alpha_not_c0 c : is_alpha c = true -> c0_control_or_space c = false.
Proof. destruct c as [[] [] [] [] [] [] [] []]; by vm_compute. Qed.

Lemma alpha_scheme_char c : is_alpha c = true -> scheme_char c = true.
Proof. unfold scheme_char. by intros ->. Qed.

Lemma filter_scheme_chars (s rest : str) :
  forallb scheme_char s = true ->
  filter (fun c => negb (unsafe_url_byte c)) (s ++ rest)
  = s ++ filter (fun c => negb (unsafe_url_byte c)) rest.
Proof.
  intros Hs. rewrite filter_app. f_equal.
  induction s as [|c s IH]; [done|].
  simpl in Hs. apply andb_true_iff in Hs as [Hc Hs].
  rewrite filter_cons_True; [by rewrite IH|].
  destruct (scheme_char_safe c Hc) as (_ & _ & ->). done.
Qed.

(** The parser takes the scheme off a text that begins with one. *)
Lemma urlsplit_scheme x sch rest s0 :
  is_alpha x = true -> forallb scheme_char sch = true ->
  match urlsplit chk (x :: sch ++ ":"%char :: rest) s0 with
  | Ok r => s_scheme r = lower <$> (x :: sch)
  | Raise _ => True
  end.
Proof.
  intros Hx Hsch.
  assert (Hall : forallb scheme_char (x :: sch) = true).
  { simpl. by rewrite (alpha_scheme_char x Hx). }
  unfold urlsplit.
  rewrite (lstrip_id c0_control_or_space (x :: _))
    by (by apply alpha_not_c0).
  rewrite (app_comm_cons sch _ x), (filter_scheme_chars (x :: sch) _ Hall).
  set (tl := filter _ (":"%char :: rest)).
  assert (tl = ":"%char :: filter (fun c => negb (unsafe_url_byte c)) rest)
    as -> by done.
  rewrite find_app.
  2:{ intros Hin. rewrite forallb_forall in Hall.
      apply list_elem_of_In, Hall, scheme_char_safe in Hin. by destruct Hin. }
  cbn [length]. rewrite <- app_comm_cons. rewrite Hx.
  rewrite app_comm_cons, take_app_length' by done.
  rewrite Hall. cbn [andb].
  unfold rbind. repeat case_match; simplify_eq; done.
Qed.

(** A text that begins with the separator has no scheme. *)
Lemma urlsplit_slash t :
  match urlsplit chk (slash :: t) [] with
  | Ok r => s_scheme r = []
  | Raise _ => True
  end.
Proof.
  unfold urlsplit.
  rewrite (lstrip_id c0_control_or_space (slash :: t)) by done.
  rewrite filter_cons_True by done.
  destruct (find ":" (slash :: _)) as [[|i]|] eqn:Hfind.
  - by apply find_Some in Hfind as [_ [=]].
  - change (is_alpha slash) with false. cbn [andb].
    unfold rbind. repeat case_match; simplify_eq; done.
  - unfold rbind. repeat case_match; simplify_eq; done.
Qed.
End Schemes.

Lemma urlparse_scheme (chk : str -> bool) (url s0 : str) (p : Urllib.ParseResult) :
  Urllib.urlparse chk url s0 = Ok p ->
  exists r, Urllib.urlsplit chk url s0 = Ok r
            /\ Urllib.scheme p = Urllib.s_scheme r.
Proof.
  unfold Urllib.urlparse, rbind.
  destruct (Urllib.urlsplit chk url s0) as [r|e]; [|done].
  intros H. exists r. split; [done|].
  by repeat case_match; simplify_eq.
Qed.

(** X18: a name that begins with a URL scheme (a letter, then letters,
    digits or [+ - .], then a colon) is never accepted, whatever the root:
    [safe_join] raises the traversal error, reporting the name with its
    separators collapsed, unless the URL parser raises [ValueError]. *)
Theorem safe_join_rejects_scheme
    (chk : str -> bool) (base : str) (x : ascii) (sch rest : str) :
  Urllib.is_alpha x = true ->
  forallb Urllib.scheme_char sch = true ->
  let name := x :: sch ++ ":"%char :: rest in
  safe_join chk base name = Raise ValueError
  \/ safe_join chk base name
     = Raise (SuspiciousFileOperation (PyStr.collapse name)
                (normalize_base base)).
Proof.
  intros Hx Hsch name.
  assert (Hxs : x <> PyStr.slash).
  { by destruct (scheme_char_safe x (alpha_scheme_char x Hx)) as (_ & ? & _). }
  assert (Hnp : normalize_path name = name).
  { apply lstrip_id. simpl. by apply bool_decide_eq_false_2. }
  assert (Hnb : exists t, normalize_base base = PyStr.slash :: t).
  { unfold normalize_base. destruct (decide (_ = py "//")); by eexists. }
  destruct Hnb as [t Hnb].
  unfold safe_join, Urllib.urljoin, rbind. rewrite Hnp, Hnb.
  change (Urllib.nonempty name) with true.
  cbn [Urllib.nonempty negb].
  destruct (Urllib.urlparse chk (PyStr.slash :: t) []) as [pb|e] eqn:Hpb.
  2:{ left. by rewrite (urlparse_raises chk _ _ _ Hpb). }
  apply urlparse_scheme in Hpb as (rb & Hrb & Hsb).
  pose proof (urlsplit_slash chk t) as Hslash. rewrite Hrb in Hslash.
  rewrite Hsb, Hslash.
  destruct (Urllib.urlparse chk name []) as [pu|e] eqn:Hpu.
  2:{ left. by rewrite (urlparse_raises chk _ _ _ Hpu). }
  apply urlparse_scheme in Hpu as (ru & Hru & Hsu).
  pose proof (urlsplit_scheme chk x sch rest [] Hx Hsch) as Hs.
  fold name in Hs. rewrite Hru in Hs.
  right. rewrite Hsu, Hs.
  decide_false (Urllib.lower <$> x :: sch = []); [done|].
  cbn [negb orb].
  destruct (PyStr.startswith _ _) eqn:Hst; [exfalso|done].
  apply startswith_true in Hst as [r Hr].
  pose proof (proj1 (collapse_head_doubled name)) as Hh.
  rewrite Hr in Hh. simpl in Hh. congruence.
Qed.

Lemma safe_join_rejects_scheme_witness :
  safe_join no_check (py "media") (py "http://evil.example//x")
  = Raise ValueError
  \/ safe_join no_check (py "media") (py "http://evil.example//x")
     = Raise (SuspiciousFileOperation
                (PyStr.collapse (py "http://evil.example//x"))
                (normalize_base (py "media"))).
Proof.
  exact (safe_join_rejects_scheme no_check (py "media") "h" (py "ttp")
           (py "//evil.example//x") eq_refl eq_refl).
Defined.
